(** * Spring Boot documentation scraper: a shallow embedding and its properties

    The scraper extracts the navigation tree of a documentation site, turns
    every link into an absolute one, fetches the referenced pages in batches
    and writes a combined index keyed by page title.

    The pure parts of the program (string handling, tree walks, batching,
    index construction) are transcribed as functions.  The outside world is
    kept explicit:
    - the network, the HTML parser, the [href] property of the DOM and
      whether standard output is a terminal are fields of an environment
      record;
    - a DOM document is a finite tree of text and element nodes;
    - exceptions are the [Throw] branch of a completion type;
    - console output, progress rendering and timers are events appended to a
      trace;
    - the order in which the requests of one batch settle is chosen by an
      oracle of the environment, so every statement holds for every
      interleaving. *)

From stdpp Require Import gmap strings list pretty.

Set Warnings "-register-all".

Local Open Scope string_scope.
Local Open Scope list_scope.

(** ** JavaScript values used by the program *)

Module Js.

Inductive JsError : Type :=
| TypeError (message : string)
| Error (message : string)
| AxiosError (message : string).

Definition message (e : JsError) : string :=
  match e with
  | TypeError m | Error m | AxiosError m => m
  end.

(** The outcome of evaluating a piece of code: a value or a thrown error.
    The same type describes a settled promise (fulfilled or rejected). *)
Inductive Completion (A : Type) : Type :=
| Normal (a : A)
| Throw (e : JsError).
Arguments Normal {A} a.
Arguments Throw {A} e.

(** Sequencing: a thrown error skips the rest of the block. *)
#[global] Instance completion_ret : MRet Completion := fun A a => Normal a.
#[global] Instance completion_bind : MBind Completion := fun A B k c =>
  match c with
  | Normal a => k a
  | Throw e => Throw e
  end.

(** [s.startsWith(p)] *)
Definition startsWith (s p : string) : bool := String.prefix p s.

(** [s.endsWith(p)] *)
Definition endsWith (s p : string) : bool :=
  let n := String.length s in
  let m := String.length p in
  Nat.leb m n && String.eqb (String.substring (n - m) m s) p.

(** [s.slice(0, -1)] *)
Definition dropLast (s : string) : string :=
  String.substring 0 (String.length s - 1) s.

(** Truthiness of a string: only the empty string is falsy. *)
Definition truthy (s : string) : bool := negb (String.eqb s "").

End Js.

Import Js.

(** ** The DOM, as far as the program queries it *)

Module Dom.

(** An element carries its local name, its class list, its attributes
    and its child nodes in document order. *)
Inductive Node : Type :=
| Text (data : string)
| Element (localName : string) (classList : list string)
          (attributes : list (string * string)) (childNodes : list Node).

Definition localName (n : Node) : option string :=
  match n with
  | Text _ => None
  | Element t _ _ _ => Some t
  end.

Definition classList (n : Node) : list string :=
  match n with
  | Text _ => []
  | Element _ cs _ _ => cs
  end.

Definition childNodes (n : Node) : list Node :=
  match n with
  | Text _ => []
  | Element _ _ _ ks => ks
  end.

Definition contains (cs : list string) (c : string) : bool :=
  existsb (String.eqb c) cs.

Fixpoint lookupAttr (name : string) (attrs : list (string * string)) : option string :=
  match attrs with
  | [] => None
  | (k, v) :: rest => if String.eqb k name then Some v else lookupAttr name rest
  end.

Definition getAttribute (n : Node) (name : string) : option string :=
  match n with
  | Text _ => None
  | Element _ _ attrs _ => lookupAttr name attrs
  end.

(** [node.textContent]: the text of all descendant text nodes. *)
Fixpoint textContent (n : Node) : string :=
  match n with
  | Text s => s
  | Element _ _ _ ks => String.concat "" (map textContent ks)
  end.

Fixpoint nodeSize (n : Node) : nat :=
  match n with
  | Text _ => 1
  | Element _ _ _ ks => S (list_sum (map nodeSize ks))
  end.

(** The element descendants of [n] in document order, each with its
    chain of ancestors (nearest first) up to and including [n]. *)
Fixpoint descendants (ancestors : list Node) (n : Node) : list (list Node * Node) :=
  match n with
  | Text _ => []
  | Element _ _ _ ks =>
      flat_map (fun k =>
                  match k with
                  | Text _ => []
                  | Element _ _ _ _ =>
                      (n :: ancestors, k) :: descendants (n :: ancestors) k
                  end) ks
  end.

(** A compound selector such as [li.nav-item[data-depth="2"]]. *)
Record Compound : Type := mkCompound {
  selTag : option string;
  selId : option string;
  selClasses : list string;
  selAttrs : list (string * string)
}.

(** A chain of compounds joined by the child combinator [>], the
    rightmost (subject) compound first. *)
Definition Selector : Type := list Compound.

Definition optEqb (want : option string) (have : option string) : bool :=
  match want with
  | None => true
  | Some w => match have with Some h => String.eqb w h | None => false end
  end.

Definition matchesCompound (c : Compound) (e : Node) : bool :=
  match e with
  | Text _ => false
  | Element _ _ _ _ =>
      optEqb (selTag c) (localName e)
      && optEqb (selId c) (getAttribute e "id")
      && forallb (contains (classList e)) (selClasses c)
      && forallb (fun kv => optEqb (Some (snd kv)) (getAttribute e (fst kv))) (selAttrs c)
  end.

Fixpoint matchesSelector (sel : Selector) (ancestors : list Node) (e : Node) : bool :=
  match sel with
  | [] => true
  | c :: rest =>
      matchesCompound c e
      && match rest with
         | [] => true
         | _ :: _ =>
             match ancestors with
             | [] => false
             | p :: ancestors' => matchesSelector rest ancestors' p
             end
         end
  end.

(** [scope.querySelectorAll(sel)]: the descendants of [scope] matching
    [sel], in document order. *)
Definition querySelectorAll (scope : Node) (sel : Selector) : list Node :=
  map snd (List.filter (fun ae => matchesSelector sel (fst ae) (snd ae)) (descendants [] scope)).

(** [scope.querySelector(sel)]: the first match, or [null]. *)
Definition querySelector (scope : Node) (sel : Selector) : option Node :=
  head (querySelectorAll scope sel).

Definition tag (t : string) : Compound :=
  {| selTag := Some t; selId := None; selClasses := []; selAttrs := [] |}.
Definition tagClass (t c : string) : Compound :=
  {| selTag := Some t; selId := None; selClasses := [c]; selAttrs := [] |}.
Definition tagId (t i : string) : Compound :=
  {| selTag := Some t; selId := Some i; selClasses := []; selAttrs := [] |}.

End Dom.

Import Dom.

(** ** The outside world *)

(** What the program does to its surroundings, in the order it does it. *)
Inductive Event : Type :=
| HttpGet (url : string)
| ConsoleError (text : string)
| Render (current total : nat)
| SetTimeout (ms : nat).

(** The collaborators of the program.
    - [httpGet url] is the body that [axios.get] answers with for [url],
      or the error it rejects with; the site does not change during a run.
    - [parseHtml] is [new jsdom.JSDOM(html).window.document]; the document
      is an element whose descendants are all elements of the page.
    - [hrefProp a] is the [href] property that the DOM gives the anchor
      [a] of a parsed page: the [href] attribute parsed against the URL of
      the document and serialized again, or the attribute as written when
      it cannot be parsed.
    - [trim] is [String.prototype.trim] and [innerHTML] the serializer.
    - [isTTY] tells whether standard output is a terminal; only then do
      [process.stdout.clearLine] and [process.stdout.cursorTo] exist.
    - [settleNext i pending] picks, among the still pending requests of the
      batch starting at task [i], the position of the one that settles
      next. *)
Record Env : Type := mkEnv {
  httpGet : string -> Completion string;
  parseHtml : string -> Node;
  hrefProp : Node -> string;
  trim : string -> string;
  innerHTML : Node -> string;
  isTTY : bool;
  settleNext : nat -> list nat -> nat
}.

(** ** Navigation tree *)

(** A navigation entry.  [childData] is absent ([undefined]) on a leaf. *)
Inductive NavData : Type := mkNavData {
  title : string;
  href : string;
  external : bool;
  childData : option (list NavData)
}.

(** The object a caller may hand to [recursiveDepthSearch] as its third
    argument; the only caller that does passes [{ childData: [] }]. *)
Record Seed : Type := mkSeed { seedChildData : list NavData }.

Definition navItemSelector (depth : nat) : Selector :=
  [ {| selTag := Some "li"; selId := None; selClasses := ["nav-item"];
       selAttrs := [("data-depth", pretty depth)] |};
    tagClass "ul" "nav-list" ].

(** The [for ... of childElems] loop of [recursiveDepthSearch]: [search]
    is the recursive call, [acc] is [data.childData] so far.  [None] means
    a call ran out of fuel. *)
Section ForEachChild.
Variable search : Node -> option (Completion NavData).

Fixpoint forEachChild (childElems : list Node) (acc : list NavData)
    : option (Completion (list NavData)) :=
  match childElems with
  | [] => Some (Normal acc)
  | childElem :: rest =>
      match search childElem with
      | None => None
      | Some (Throw e) => Some (Throw e)
      | Some (Normal retData) => forEachChild rest (acc ++ [retData])
      end
  end.
End ForEachChild.

(** [recursiveDepthSearch(elem, depth, data)].  The recursion follows
    descendants of [elem], which is not structural, so it is bounded by
    [fuel]; [None] means the bound was reached.  The argument [data] is
    assigned before it is read. *)
Fixpoint recursiveDepthSearchFuel (env : Env) (fuel : nat) (elem : Node) (depth : nat)
    (data : option Seed) : option (Completion NavData) :=
  match fuel with
  | 0 => None
  | S fuel' =>
      match querySelector elem [tag "a"] with
      | None => Some (Throw (TypeError "Cannot read properties of null (reading 'textContent')"))
      | Some a =>
          let data := {| title := textContent a; href := hrefProp env a;
                         external := contains (classList a) "link-external";
                         childData := None |} in
          let childElems := querySelectorAll elem (navItemSelector depth) in
          if Nat.eqb (length childElems) 0 then Some (Normal data)
          else
            match forEachChild
                    (fun childElem =>
                       recursiveDepthSearchFuel env fuel' childElem (depth + 1) None)
                    childElems [] with
            | None => None
            | Some (Throw e) => Some (Throw e)
            | Some (Normal cs) =>
                Some (Normal {| title := title data; href := href data;
                                external := external data; childData := Some cs |})
            end
      end
  end.

(** The size of the element is enough fuel (see [recursiveDepthSearch_fuel]),
    so the last branch is never taken. *)
Definition recursiveDepthSearch (env : Env) (elem : Node) (depth : nat)
    (data : option Seed) : Completion NavData :=
  match recursiveDepthSearchFuel env (nodeSize elem) elem depth data with
  | Some c => c
  | None => Throw (Error "unreachable")
  end.

(** The [for ... of data.childData] loop of [recursiveAnchorProcess]. *)
Section ForEachData.
Context {S : Type}.
Variable visit : NavData -> S -> NavData * S.

Fixpoint forEachData (l : list NavData) (s : S) : list NavData * S :=
  match l with
  | [] => ([], s)
  | c :: rest =>
      let '(c', s1) := visit c s in
      let '(rest', s2) := forEachData rest s1 in
      (c' :: rest', s2)
  end.
End ForEachData.

(** [recursiveAnchorProcess(callback, data)].  The callback may update the
    node it is given and a state of its own [S]; the nodes of a tree are
    distinct objects, so updating in place is rebuilding the tree. *)
Fixpoint recursiveAnchorProcess {S : Type} (callback : NavData -> S -> NavData * S)
    (data : NavData) (s : S) : NavData * S :=
  match data with
  | mkNavData t h e None => callback data s
  | mkNavData t h e (Some cs) =>
      let '(cs', s') := forEachData (recursiveAnchorProcess callback) cs s in
      callback (mkNavData t h e (Some cs')) s'
  end.

(** The link rewriting of [getSpringBootDocsNavData], step 6, on one href. *)
Definition resolve (h baseURL : string) : string :=
  if truthy h
  then baseURL +:+ (if startsWith h "/" then "" else "/") +:+ h
  else h.

Definition resolveCallback (baseURL : string) (data : NavData) (s : unit) : NavData * unit :=
  ({| title := title data; href := resolve (href data) baseURL;
      external := external data; childData := childData data |}, s).

Definition getHtmlData (env : Env) (url : string) : list Event * Completion string :=
  ([HttpGet url], httpGet env url).

Definition convertHtmlToDOM (env : Env) (html : string) : Node := parseHtml env html.

Definition stripSlash (baseURL : string) : string :=
  if endsWith baseURL "/" then dropLast baseURL else baseURL.

(** [getSpringBootDocsNavData(baseURL)]: the events it causes and its
    completion. *)
Definition getSpringBootDocsNavData (env : Env) (baseURL : string)
    : list Event * Completion NavData :=
  let baseURL := stripSlash baseURL in
  let '(tr, response) := getHtmlData env baseURL in
  let result :=
    htmlData ← response;
    let sbDocDOM := convertHtmlToDOM env htmlData in
    let rootNavElem := querySelector sbDocDOM [tagClass "nav" "nav-menu"] in
    refinedData ←
      match rootNavElem with
      | None => Throw (TypeError "Cannot read properties of null (reading 'querySelector')")
      | Some elem => recursiveDepthSearch env elem 1 (Some {| seedChildData := [] |})
      end;
    Normal (fst (recursiveAnchorProcess (resolveCallback baseURL) refinedData tt)) in
  match result with
  | Normal refinedData => (tr, Normal refinedData)
  | Throw error => (tr ++ [ConsoleError (message error)], Throw error)
  end.

(** Step 3 of [main]: the hrefs of the in-domain entries. *)
Definition collectCallback (data : NavData) (articleUrls : list string)
    : NavData * list string :=
  (data, if truthy (href data) && negb (external data)
         then articleUrls ++ [href data] else articleUrls).

Definition collectArticleUrls (refinedData : NavData) : list string :=
  snd (recursiveAnchorProcess collectCallback refinedData []).

(** ** Article pages *)

Module Article.
Record ArticleData : Type := mkArticleData {
  url : string;
  title : string;
  breadcrumbs : string;
  content : string
}.
End Article.
Import (coercions) Article.
Abbreviation ArticleData := Article.ArticleData.

Definition getArticleTitle (env : Env) (articleElem : Node) : Completion string :=
  match querySelector articleElem [tagId "h1" "page-title"] with
  | None => Throw (TypeError "Cannot read properties of null (reading 'textContent')")
  | Some h1 => Normal (trim env (textContent h1))
  end.

(** The breadcrumb items are looked up below an [article] element, so the
    [ul] and [nav] the selector asks for lie below it as well. *)
Definition getArticleBreadcrumbs (env : Env) (articleElem : Node) : string :=
  String.concat " > "
    (map (fun li => trim env (textContent li))
         (querySelectorAll articleElem [tag "li"; tag "ul"; tagClass "nav" "breadcrumbs"])).

(** What a call of [getSpringBootDocsArticleData(url)] completes with once
    the response is there. *)
Definition articleOutcome (env : Env) (url : string) : Completion ArticleData :=
  htmlData ← httpGet env url;
  let docDOM := convertHtmlToDOM env htmlData in
  articleElem ←
    match querySelector docDOM [tagClass "article" "doc"] with
    | None => Throw (Error "문서 요소를 찾을 수 없습니다.")
    | Some articleElem => Normal articleElem
    end;
  title ← getArticleTitle env articleElem;
  let breadcrumbs := getArticleBreadcrumbs env articleElem in
  let content := innerHTML env articleElem in
  Normal {| Article.url := url; Article.title := title;
            Article.breadcrumbs := breadcrumbs; Article.content := content |}.

(** A call of an [async] function: what it does before it first suspends,
    what it does when it resumes, and how its promise settles. *)
Record Promise (A : Type) : Type := mkPromise {
  onCall : list Event;
  onSettle : list Event;
  outcome : Completion A
}.
Arguments mkPromise {A} _ _ _.
Arguments onCall {A} _.
Arguments onSettle {A} _.
Arguments outcome {A} _.

(** [getSpringBootDocsArticleData(url)]: the request goes out at the call;
    an error is logged and thrown again when the promise settles. *)
Definition getSpringBootDocsArticleData (env : Env) (url : string) : Promise ArticleData :=
  let result := articleOutcome env url in
  {| onCall := fst (getHtmlData env url);
     onSettle := match result with
                 | Normal _ => []
                 | Throw error => [ConsoleError (url +:+ ": " +:+ message error)]
                 end;
     outcome := result |}.

(** ** Progress bar *)

Module ProgressBar.

Record ProgressBar : Type := mkProgressBar {
  total : nat;
  current : nat;
  width : nat;
  isComplete : bool
}.

(** [new ProgressBar(total)].  [main] creates the bar with the number of
    URLs and reports counts of settled requests to it, so the fields hold
    natural numbers; the width is left at its default. *)
Definition new (total : nat) : ProgressBar :=
  {| total := total; current := 0; width := 30; isComplete := false |}.

(** What [render()] throws when standard output is not a terminal: its
    first statement after the bar is computed calls
    [process.stdout.clearLine], which is then [undefined]. *)
Definition renderError : JsError :=
  TypeError "process.stdout.clearLine is not a function".

(** [render()]: on a terminal ([tty]) it writes one line showing [current]
    of [total]; otherwise it throws before anything is written.  With
    natural numbers in the fields the computation of the bar itself does
    not fail. *)
Definition render (tty : bool) (pb : ProgressBar) : list Event * Completion unit :=
  if tty then ([Render (current pb) (total pb)], Normal tt)
  else ([], Throw renderError).

(** [complete()]; the fields keep what was assigned before [render]
    throws. *)
Definition complete (tty : bool) (pb : ProgressBar)
    : ProgressBar * list Event * Completion unit :=
  let pb := {| total := total pb; current := total pb; width := width pb;
               isComplete := isComplete pb |} in
  let '(out, r) := render tty pb in
  (pb, out, r).

(** [update(current)] *)
Definition update (tty : bool) (pb : ProgressBar) (c : nat)
    : ProgressBar * list Event * Completion unit :=
  let '(pb, out1, r1) :=
    if Nat.leb (total pb) (current pb) && negb (isComplete pb)
    then complete tty {| total := total pb; current := current pb; width := width pb;
                         isComplete := true |}
    else (pb, [], Normal tt) in
  match r1 with
  | Throw e => (pb, out1, Throw e)
  | Normal _ =>
      let pb := {| total := total pb; current := c; width := width pb;
                   isComplete := isComplete pb |} in
      let '(out2, r2) := render tty pb in
      (pb, out1 ++ out2, r2)
  end.

End ProgressBar.

(** ** The batch loop of [main] *)

(** The variables of [main] that the loop reads and writes, and the trace. *)
Record MainState : Type := mkMainState {
  completedCount : nat;
  progress : ProgressBar.ProgressBar;
  articleDataArr : list ArticleData;
  batches : list (list string);
  trace : list Event
}.

Definition emit (evs : list Event) (st : MainState) : MainState :=
  {| completedCount := completedCount st; progress := progress st;
     articleDataArr := articleDataArr st; batches := batches st;
     trace := trace st ++ evs |}.

(** [completedCount++; progress.update(completedCount);] with the error
    that [update] may throw. *)
Definition countAndReport (env : Env) (st : MainState) : Completion unit * MainState :=
  let n := S (completedCount st) in
  let '(pb, out, r) := ProgressBar.update (isTTY env) (progress st) n in
  (r, {| completedCount := n; progress := pb;
         articleDataArr := articleDataArr st; batches := batches st;
         trace := trace st ++ out |}).

(** [promise.then(h)] and [promise.catch(h)] at the moment the promise
    settles; a handler runs to completion on the state. *)
Definition then_ {St A B : Type} (p : Completion A)
    (h : A -> St -> Completion B * St) (st : St) : Completion B * St :=
  match p with
  | Normal a => h a st
  | Throw e => (Throw e, st)
  end.

Definition catch_ {St A : Type} (p : Completion A)
    (h : JsError -> St -> Completion A * St) (st : St) : Completion A * St :=
  match p with
  | Normal a => (Normal a, st)
  | Throw e => h e st
  end.

(** The two handlers attached to every request; [None] is [null].  A
    handler that throws rejects the promise it was to settle, and
    [.catch] is chained after [.then], so an error thrown by the first
    handler is handed to the second. *)
Definition onFulfilled (env : Env) (articleData : ArticleData) (st : MainState)
    : Completion (option ArticleData) * MainState :=
  let '(r, st) := countAndReport env st in
  (_ ← r; Normal (Some articleData), st).

Definition onRejected (env : Env) (url : string) (error : JsError) (st : MainState)
    : Completion (option ArticleData) * MainState :=
  let st := emit [ConsoleError (url +:+ ": " +:+ message error)] st in
  let '(r, st) := countAndReport env st in
  (_ ← r; Normal None, st).

(** One request of a batch settles. *)
Definition settleTask (env : Env) (url : string) (st : MainState)
    : Completion (option ArticleData) * MainState :=
  let p := getSpringBootDocsArticleData env url in
  let st := emit (onSettle p) st in
  let '(r, st) := then_ (outcome p) (onFulfilled env) st in
  catch_ r (onRejected env url) st.

(** The requests of a batch settle one after the other, in the order the
    environment chooses; the result of request [j] goes to slot [j].  The
    first promise that rejects makes [Promise.all] reject, and [main] goes
    on from there: what the requests still pending would do is no longer
    part of the run. *)
Fixpoint settleAll (env : Env) (i : nat) (n : nat) (pending : list (nat * string))
    (slots : list (option (Completion (option ArticleData)))) (st : MainState)
    : list (option (Completion (option ArticleData))) * MainState :=
  match n with
  | 0 => (slots, st)
  | S n' =>
      let k := settleNext env i (map fst pending) mod length pending in
      match pending !! k with
      | None => (slots, st)
      | Some (j, url) =>
          let '(r, st) := settleTask env url st in
          let slots := <[j := Some r]> slots in
          match r with
          | Throw _ => (slots, st)
          | Normal _ => settleAll env i n' (delete k pending) slots st
          end
      end
  end.

(** The error of the first rejected promise of a list, if any. *)
Fixpoint rejection {A : Type} (slots : list (option (Completion A))) : option JsError :=
  match slots with
  | [] => None
  | Some (Throw e) :: _ => Some e
  | _ :: rest => rejection rest
  end.

(** The values of the promises of a list when all are fulfilled. *)
Fixpoint fulfilment {A : Type} (slots : list (option (Completion A))) : option (list A) :=
  match slots with
  | [] => Some []
  | Some (Normal v) :: rest =>
      match fulfilment rest with
      | Some vs => Some (v :: vs)
      | None => None
      end
  | _ :: _ => None
  end.

(** [await Promise.all(promises)] at the moment it settles: it throws the
    error of the promise that rejected, or yields the values of the
    promises in their order once all are fulfilled. *)
Definition promiseAll {A : Type} (slots : list (option (Completion A)))
    : Completion (list A) :=
  match rejection slots with
  | Some e => Throw e
  | None =>
      match fulfilment slots with
      | Some vs => Normal vs
      | None => Throw (Error "pending")
      end
  end.

(** [l.slice(i, j)] for [i <= j]. *)
Definition slice {A : Type} (l : list A) (i j : nat) : list A := take (j - i) (drop i l).

(** [results.filter(Boolean)] *)
Definition filterBoolean {A : Type} (results : list (option A)) : list A := omap id results.

(** Lines 181 to 197: one batch from the call of [map] to the result of
    [Promise.all]. *)
Definition runBatch (env : Env) (i : nat) (batch : list string) (st : MainState)
    : Completion (list (option ArticleData)) * MainState :=
  let st := emit (flat_map (fun url => onCall (getSpringBootDocsArticleData env url)) batch) st in
  let '(slots, st) :=
    settleAll env i (length batch) (imap (fun j url => (j, url)) batch)
              (replicate (length batch) None) st in
  (promiseAll slots, st).

Definition recordBatch (batch : list string) (st : MainState) : MainState :=
  {| completedCount := completedCount st; progress := progress st;
     articleDataArr := articleDataArr st; batches := batches st ++ [batch];
     trace := trace st |}.

Definition pushArticles (docs : list ArticleData) (st : MainState) : MainState :=
  {| completedCount := completedCount st; progress := progress st;
     articleDataArr := articleDataArr st ++ docs; batches := batches st;
     trace := trace st |}.

(** [for (let i = ...; i < articleUrls.length; i += BATCH_SIZE) { ... }].
    With [BATCH_SIZE = 0] the loop would not end, hence the fuel. *)
Fixpoint batchLoop (env : Env) (BATCH_SIZE : nat) (articleUrls : list string)
    (fuel : nat) (i : nat) (st : MainState) : option (Completion unit * MainState) :=
  if Nat.ltb i (length articleUrls) then
    match fuel with
    | 0 => None
    | S fuel' =>
        let batch := slice articleUrls i (i + BATCH_SIZE) in
        let st := recordBatch batch st in
        let '(batchResults, st) := runBatch env i batch st in
        match batchResults with
        | Throw e => Some (Throw e, st)
        | Normal batchResults =>
            let st := pushArticles (filterBoolean batchResults) st in
            let st := emit [SetTimeout 500] st in
            batchLoop env BATCH_SIZE articleUrls fuel' (i + BATCH_SIZE) st
        end
    end
  else Some (Normal tt, st).

(** Steps 4 and 5 of [main] for a given list of URLs and batch size. *)
Definition fetchAll (env : Env) (BATCH_SIZE : nat) (articleUrls : list string)
    : option (Completion unit * MainState) :=
  let st := {| completedCount := 0; progress := ProgressBar.new (length articleUrls);
               articleDataArr := []; batches := []; trace := [] |} in
  batchLoop env BATCH_SIZE articleUrls (length articleUrls) 0 st.

Definition BATCH_SIZE : nat := 5.

(** ** The combined index *)

Module Index.
Record Entry : Type := mkEntry {
  url : string;
  breadcrumbs : string;
  content : string
}.
End Index.

(** [obj[key] = value] on an ordinary object whose values are objects:
    the key [__proto__] reaches the setter inherited from
    [Object.prototype], which replaces the prototype and adds no entry. *)
Definition setProperty {V : Type} (obj : gmap string V) (key : string) (value : V)
    : gmap string V :=
  if String.eqb key "__proto__" then obj else <[key := value]> obj.

(** Step 6 of [main]: [allArticleData] after the [map] over [articleDataArr]. *)
Definition buildIndex (articleDataArr : list ArticleData) : gmap string Index.Entry :=
  foldl (fun allArticleData articleData =>
           setProperty allArticleData (Article.title articleData)
             {| Index.url := Article.url articleData;
                Index.breadcrumbs := Article.breadcrumbs articleData;
                Index.content := Article.content articleData |})
        ∅ articleDataArr.

(** The index built from the results of the requests, failed ones
    ([null]) left out as on line 199. *)
Definition aggregate (results : list (option ArticleData)) : gmap string Index.Entry :=
  buildIndex (filterBoolean results).

(** ** The whole of [main] *)

Record MainResult : Type := mkMainResult {
  navData : NavData;
  articles : list ArticleData;
  allArticleData : gmap string Index.Entry
}.

(** [main()] without its file-system calls (the directories it creates and
    the files it writes do not influence anything below): the trace and
    the completion, or [None] if the batch loop does not end. *)
Definition main (env : Env) : option (list Event * Completion MainResult) :=
  let '(tr, nav) := getSpringBootDocsNavData env "https://docs.spring.io/spring-boot" in
  match nav with
  | Throw e => Some (tr, Throw e)
  | Normal refinedData =>
      let articleUrls := collectArticleUrls refinedData in
      match fetchAll env BATCH_SIZE articleUrls with
      | None => None
      | Some (Throw e, st) => Some (tr ++ trace st, Throw e)
      | Some (Normal _, st) =>
          Some (tr ++ trace st,
                Normal {| navData := refinedData; articles := articleDataArr st;
                          allArticleData := buildIndex (articleDataArr st) |})
      end
  end.

(** ** Sample data *)

Module Sample.

Definition anchor (classes : list string) (h t : string) : Node :=
  Element "a" classes [("href", h)] [Text t].
Definition item (depth : string) (ks : list Node) : Node :=
  Element "li" ["nav-item"] [("data-depth", depth)] ks.
Definition navList (ks : list Node) : Node := Element "ul" ["nav-list"] [] ks.

(** The menu of a small site: a title link, then the entries A, B
    (external) and C, the last with one entry D below it. *)
Definition menu : Node :=
  Element "nav" ["nav-menu"] []
    [ Element "h3" ["title"] [] [anchor [] "index.html" "Spring Boot"];
      navList
        [ item "1" [anchor [] "a.html" "A"];
          item "1" [anchor ["link-external"] "https://x.com/b" "B"];
          item "1" [anchor [] "/c.html" "C";
                    navList [ item "2" [anchor [] "d.html" "D"] ] ] ] ].

(** The entry C of [menu] on its own, and the entry D below it. *)
Definition itemD : Node := item "2" [anchor [] "d.html" "D"].
Definition itemC : Node := item "1" [anchor [] "/c.html" "C"; navList [itemD]].

(** The [href] property of the anchors of the sample pages.  Their hrefs
    are relative references, which a document without a URL of its own
    cannot resolve, and one absolute URL in serialized form; for these the
    property is the attribute as written. *)
Definition rawHref (a : Node) : string :=
  match getAttribute a "href" with
  | Some v => v
  | None => ""
  end.

Definition page (ks : list Node) : Node :=
  Element "#document" [] [] [Element "html" [] [] [Element "body" [] [] ks]].

Definition articlePage (t : string) : Node :=
  page [ Element "article" ["doc"] []
           [ Element "nav" ["breadcrumbs"] []
               [ Element "ul" [] [] [ Element "li" [] [] [Text "Docs"];
                                      Element "li" [] [] [Text t] ] ];
             Element "h1" [] [("id", "page-title")] [Text t] ] ].

(** A site whose home page carries [menu]; the page [d.html] cannot be
    fetched, [c.html] has no article, every other page is an article
    titled by its address.  Within a batch the request issued last
    settles first. *)
Definition site : Env :=
  {| httpGet := fun u =>
       if String.eqb u "https://docs.example.com/d.html"
       then Throw (AxiosError "Request failed with status code 404")
       else Normal u;
     parseHtml := fun html =>
       if String.eqb html "https://docs.example.com" then page [menu]
       else if String.eqb html "https://docs.example.com/c.html" then page []
       else articlePage html;
     hrefProp := rawHref;
     trim := fun s => s;
     innerHTML := fun n => textContent n;
     isTTY := true;
     settleNext := fun _ pending => length pending - 1 |}.

(** The tree of the first example scenario, links already resolved. *)
Definition leaf (t h : string) (e : bool) : NavData :=
  {| title := t; href := h; external := e; childData := None |}.
Definition exampleTree : NavData :=
  {| title := ""; href := ""; external := false;
     childData := Some [ leaf "A" "A" false; leaf "B" "B" true;
                         {| title := "C"; href := "C"; external := false;
                            childData := Some [ leaf "D" "D" false ] |} ] |}.

Definition entryD : NavData := leaf "D" "d.html" false.
Definition entryC : NavData :=
  {| title := "C"; href := "/c.html"; external := false; childData := Some [entryD] |}.

Definition doc (u t : string) : ArticleData :=
  {| Article.url := u; Article.title := t; Article.breadcrumbs := "Docs > " +:+ t;
     Article.content := t |}.

(** The same site visited with standard output sent to a file or a
    pipe. *)
Definition pipedSite : Env :=
  {| httpGet := httpGet site; parseHtml := parseHtml site; hrefProp := hrefProp site;
     trim := trim site; innerHTML := innerHTML site;
     isTTY := false;
     settleNext := settleNext site |}.

(** The same site with the requests of a batch settling in the order in
    which they were issued. *)
Definition siteInOrder : Env :=
  {| httpGet := httpGet site; parseHtml := parseHtml site; hrefProp := hrefProp site;
     trim := trim site; innerHTML := innerHTML site;
     isTTY := true;
     settleNext := fun _ _ => 0 |}.

Definition sevenUrls : list string := ["u1"; "u2"; "u3"; "u4"; "u5"; "u6"; "u7"].

(** Four tasks on the sample site, the second of which cannot be fetched
    and the third of which has no article. *)
Definition failingUrls : list string :=
  ["https://docs.example.com/a.html"; "https://docs.example.com/d.html";
   "https://docs.example.com/c.html"; "https://docs.example.com/index.html"].

(** A site at the address [main] starts from: its home page carries
    [menu] and every other page is an article titled by its address. *)
Definition springSite : Env :=
  {| httpGet := fun u => Normal u;
     parseHtml := fun html =>
       if String.eqb html "https://docs.spring.io/spring-boot" then page [menu]
       else articlePage html;
     hrefProp := rawHref;
     trim := fun s => s;
     innerHTML := fun n => textContent n;
     isTTY := true;
     settleNext := fun _ _ => 0 |}.

(** The same site visited with standard output sent to a file or a
    pipe. *)
Definition pipedSpringSite : Env :=
  {| httpGet := httpGet springSite; parseHtml := parseHtml springSite;
     hrefProp := hrefProp springSite; trim := trim springSite;
     innerHTML := innerHTML springSite;
     isTTY := false;
     settleNext := settleNext springSite |}.

End Sample.

(** ** Vocabulary of the statements *)

(** An induction principle that reaches the entries below an entry. *)
Section NavDataInd.
Variable P : NavData -> Prop.
Hypothesis Hleaf : forall t h e, P (mkNavData t h e None).
Hypothesis Hnode : forall t h e cs, Forall P cs -> P (mkNavData t h e (Some cs)).

Fixpoint NavData_nested_ind (d : NavData) : P d :=
  match d with
  | mkNavData t h e None => Hleaf t h e
  | mkNavData t h e (Some cs) =>
      Hnode t h e cs
        ((fix all (l : list NavData) : Forall P l :=
            match l with
            | [] => List.Forall_nil P
            | c :: r => List.Forall_cons P c r (NavData_nested_ind c) (all r)
            end) cs)
  end.
End NavDataInd.

(** The entries of a tree, every entry after the entries below it, the
    entries below an entry in their order in [childData]. *)
Fixpoint postorder (d : NavData) : list NavData :=
  match d with
  | mkNavData _ _ _ None => [d]
  | mkNavData _ _ _ (Some cs) => flat_map postorder cs ++ [d]
  end.

(** The entries of a tree, every entry before the entries below it. *)
Fixpoint preorder (d : NavData) : list NavData :=
  match d with
  | mkNavData _ _ _ None => [d]
  | mkNavData _ _ _ (Some cs) => d :: flat_map preorder cs
  end.

Definition inDomain (d : NavData) : bool := truthy (href d) && negb (external d).

Definition inDomainHrefs (l : list NavData) : list string :=
  map href (List.filter inDomain l).

(** An induction principle that reaches the child nodes of an element. *)
Section NodeInd.
Variable P : Node -> Prop.
Hypothesis Htext : forall s, P (Text s).
Hypothesis Helem : forall t cs attrs ks, Forall P ks -> P (Element t cs attrs ks).

Fixpoint Node_nested_ind (n : Node) : P n :=
  match n with
  | Text s => Htext s
  | Element t cs attrs ks =>
      Helem t cs attrs ks
        ((fix all (l : list Node) : Forall P l :=
            match l with
            | [] => List.Forall_nil P
            | k :: r => List.Forall_cons P k r (Node_nested_ind k) (all r)
            end) ks)
  end.
End NodeInd.

(** [<li class="nav-item" data-depth="depth">] *)
Definition isNavItem (depth : nat) (e : Node) : Prop :=
  localName e = Some "li"
  /\ In "nav-item" (classList e)
  /\ getAttribute e "data-depth" = Some (pretty depth).

(** [<ul class="nav-list">] *)
Definition isNavList (e : Node) : Prop :=
  localName e = Some "ul" /\ In "nav-list" (classList e).

(** The index entry of a document. *)
Definition entryOf (articleData : ArticleData) : Index.Entry :=
  {| Index.url := Article.url articleData;
     Index.breadcrumbs := Article.breadcrumbs articleData;
     Index.content := Article.content articleData |}.

(** The keys that an assignment [obj[key] = value] really stores. *)
Definition storedKeys (keys : list string) : list string :=
  List.filter (fun key => negb (String.eqb key "__proto__")) keys.

(** The titles of the documents that were fetched, in task order. *)
Definition successTitles (results : list (option ArticleData)) : list string :=
  map Article.title (filterBoolean results).

(** What a request contributes to the results of its batch: the document,
    or [null] when the request or the extraction failed. *)
Definition taskResult (env : Env) (url : string) : option ArticleData :=
  match articleOutcome env url with
  | Normal articleData => Some articleData
  | Throw _ => None
  end.

(** The progress reports of a trace: the pairs (current, total) rendered. *)
Definition renders (tr : list Event) : list (nat * nat) :=
  omap (fun ev => match ev with Render c t => Some (c, t) | _ => None end) tr.

(** The addresses requested in a trace. *)
Definition requests (tr : list Event) : list string :=
  omap (fun ev => match ev with HttpGet u => Some u | _ => None end) tr.

(** The pauses of a trace. *)
Definition delays (tr : list Event) : list nat :=
  omap (fun ev => match ev with SetTimeout ms => Some ms | _ => None end) tr.

(** The number of batches for [n] tasks and batch size [b]. *)
Definition ceilDiv (n b : nat) : nat := (n + b - 1) / b.

(** The events of a request that settles when the counter is [c]: the
    error messages of a failed request, then the progress report. *)
Definition settleEvents (env : Env) (url : string) (c n : nat) : list Event :=
  match articleOutcome env url with
  | Normal _ => []
  | Throw error => [ConsoleError (url +:+ ": " +:+ message error);
                    ConsoleError (url +:+ ": " +:+ message error)]
  end ++ [Render (S c) n].

(** What one batch leaves in the trace: its requests, one progress report
    for each of them, and no pause. *)
Definition batchSegment (batch : list string) (seg : list Event) : Prop :=
  requests seg = batch /\ delays seg = [] /\ length (renders seg) = length batch.

(** The progress bar is in step with the counter of [main]. *)
Definition inStep (n : nat) (st : MainState) : Prop :=
  ProgressBar.total (progress st) = n
  /\ ProgressBar.current (progress st) = completedCount st
  /\ ProgressBar.isComplete (progress st) = false.

(** Batches of full size, the last one possibly smaller but not empty. *)
Fixpoint fullThenRest (size : nat) (bs : list (list string)) : Prop :=
  match bs with
  | [] => True
  | [b] => 0 < length b <= size
  | b :: rest => length b = size /\ fullThenRest size rest
  end.

(** The same tree with [f] applied to the href of every entry. *)
Fixpoint mapHref (f : string -> string) (d : NavData) : NavData :=
  match d with
  | mkNavData t h e None => mkNavData t (f h) e None
  | mkNavData t h e (Some cs) => mkNavData t (f h) e (Some (map (mapHref f) cs))
  end.

(** Trees in which no entry has an empty list of children. *)
Inductive Branching : NavData -> Prop :=
| Branching_leaf t h e : Branching (mkNavData t h e None)
| Branching_node t h e cs :
    cs <> [] -> Forall Branching cs -> Branching (mkNavData t h e (Some cs)).

(** The documents of a list that carry a given title. *)
Definition titled (t : string) (arr : list ArticleData) : list ArticleData :=
  List.filter (fun a => String.eqb (Article.title a) t) arr.

(** Whether the request for [url] yields a document. *)
Definition fetched (env : Env) (url : string) : bool :=
  match taskResult env url with
  | Some _ => true
  | None => false
  end.

(** The address [main] starts from. *)
Definition startURL : string := "https://docs.spring.io/spring-boot".

(** * Properties *)

(** ** Strings *)

Lemma length_append (s t : string) :
  String.length (s +:+ t) = String.length s + String.length t.
Proof. induction s as [|c s IH]; simpl; [done | by rewrite IH]. Qed.

Lemma substring_append_prefix (s t : string) :
  String.substring 0 (String.length s) (s +:+ t) = s.
Proof.
  induction s as [|c s IH]; simpl.
  - by destruct t.
  - by rewrite IH.
Qed.

Lemma substring_append_suffix (s t : string) :
  String.substring (String.length s) (String.length t) (s +:+ t) = t.
Proof.
  induction s as [|c s IH]; simpl; [|done].
  induction t as [|d t IHt]; simpl; [done | by f_equal].
Qed.

Lemma endsWith_append (s t : string) : endsWith (s +:+ t) t = true.
Proof.
  unfold endsWith. rewrite length_append.
  replace (String.length s + String.length t - String.length t) with (String.length s) by lia.
  rewrite substring_append_suffix, String.eqb_refl, andb_true_r.
  apply Nat.leb_le. lia.
Qed.

Lemma dropLast_append_slash (s : string) : dropLast (s +:+ "/") = s.
Proof.
  unfold dropLast. rewrite length_append. simpl.
  replace (String.length s + 1 - 1) with (String.length s) by lia.
  apply substring_append_prefix.
Qed.

Lemma stripSlash_append_slash (b : string) : stripSlash (b +:+ "/") = b.
Proof. unfold stripSlash. by rewrite endsWith_append, dropLast_append_slash. Qed.

Lemma truthy_length (s : string) : truthy s = true -> 0 < String.length s.
Proof. destruct s; simpl; [done | lia]. Qed.

(** Rewriting a non-empty href with a non-empty base makes it longer:
    the result starts with the base, whatever the href was. *)
Lemma resolve_grows (h b : string) :
  truthy h = true -> truthy b = true ->
  String.length h < String.length (resolve h b).
Proof.
  intros Hh Hb. unfold resolve. rewrite Hh, !length_append.
  apply truthy_length in Hb. lia.
Qed.

Lemma resolve_truthy (h b : string) : truthy h = true -> truthy (resolve h b) = true.
Proof.
  intros Hh. unfold resolve. rewrite Hh.
  destruct b as [|c b]; [|done].
  destruct (startsWith h "/"); [done|]. done.
Qed.

Lemma resolve_not_idempotent (h b : string) :
  truthy h = true -> truthy b = true ->
  resolve (resolve h b) b <> resolve h b.
Proof.
  intros Hh Hb Heq.
  pose proof (resolve_grows (resolve h b) b (resolve_truthy h b Hh) Hb) as Hlt.
  rewrite Heq in Hlt. lia.
Qed.

(** ** Walking the tree *)

Lemma inDomainHrefs_app (l1 l2 : list NavData) :
  inDomainHrefs (l1 ++ l2) = inDomainHrefs l1 ++ inDomainHrefs l2.
Proof. unfold inDomainHrefs. by rewrite List.filter_app, map_app. Qed.

Lemma collectCallback_spec (d : NavData) (acc : list string) :
  collectCallback d acc = (d, acc ++ inDomainHrefs [d]).
Proof.
  unfold collectCallback, inDomainHrefs, inDomain. simpl.
  destruct (truthy (href d) && negb (external d)); simpl; [done|].
  by rewrite app_nil_r.
Qed.

Lemma forEachData_collect (cs : list NavData) :
  Forall (fun c => forall acc,
            recursiveAnchorProcess collectCallback c acc
            = (c, acc ++ inDomainHrefs (postorder c))) cs ->
  forall acc,
    forEachData (recursiveAnchorProcess collectCallback) cs acc
    = (cs, acc ++ inDomainHrefs (flat_map postorder cs)).
Proof.
  induction 1 as [|c r Hc _ IH]; intros acc; simpl.
  - by rewrite app_nil_r.
  - rewrite Hc, IH, inDomainHrefs_app. by rewrite <- app_assoc.
Qed.

Lemma recursiveAnchorProcess_collect (d : NavData) :
  forall acc,
    recursiveAnchorProcess collectCallback d acc
    = (d, acc ++ inDomainHrefs (postorder d)).
Proof.
  induction d as [t h e | t h e cs IH] using NavData_nested_ind; intros acc.
  - simpl. apply collectCallback_spec.
  - simpl. rewrite (forEachData_collect cs IH acc), collectCallback_spec.
    by rewrite inDomainHrefs_app, <- app_assoc.
Qed.

(** C2 (as amended): the walk hands the callback every entry after the
    entries below it, the entries below an entry in source order; the
    collected URLs are the hrefs of the entries, in that order, that have a
    non-empty href and are not external. *)
Theorem collectArticleUrls_postorder (refinedData : NavData) :
  collectArticleUrls refinedData = inDomainHrefs (postorder refinedData).
Proof.
  unfold collectArticleUrls. by rewrite recursiveAnchorProcess_collect.
Qed.

(** C2 (as stated) fails on the tree root -> [A, B (external), C -> [D]]:
    D is collected before C, so the result is [A, D, C]; it is neither
    [A, C, D] nor the parent-first order. *)
Lemma collectArticleUrls_example_not_preorder :
  collectArticleUrls Sample.exampleTree = ["A"; "D"; "C"]
  /\ collectArticleUrls Sample.exampleTree <> ["A"; "C"; "D"]
  /\ collectArticleUrls Sample.exampleTree <> inDomainHrefs (preorder Sample.exampleTree).
Proof. repeat split; vm_compute; congruence. Qed.

(** ** Querying the DOM *)

Lemma nodeSize_le_sum (k : Node) (ks : list Node) :
  In k ks -> nodeSize k <= list_sum (map nodeSize ks).
Proof.
  induction ks as [|k' ks IH]; simpl; [done|].
  intros [-> | Hin]; [lia | specialize (IH Hin); lia].
Qed.

Lemma descendants_smaller (n : Node) :
  forall anc a c, In (a, c) (descendants anc n) -> nodeSize c < nodeSize n.
Proof.
  induction n as [s | t cs attrs ks IH] using Node_nested_ind; intros anc a c Hin.
  - destruct Hin.
  - simpl in Hin. apply in_flat_map in Hin as (k & Hk & Hin).
    pose proof (nodeSize_le_sum k ks Hk) as Hle.
    rewrite List.Forall_forall in IH. specialize (IH k Hk).
    destruct k as [s | t' cs' attrs' ks']; [destruct Hin|].
    destruct Hin as [Heq | Hin].
    + injection Heq as _ <-. simpl in *. lia.
    + specialize (IH _ _ _ Hin). simpl in *. lia.
Qed.

Lemma querySelectorAll_smaller (scope : Node) (sel : Selector) (c : Node) :
  In c (querySelectorAll scope sel) -> nodeSize c < nodeSize scope.
Proof.
  unfold querySelectorAll. intros Hin.
  apply in_map_iff in Hin as ([a c'] & <- & Hin).
  apply filter_In in Hin as [Hin _]. by eapply descendants_smaller.
Qed.

Lemma nodeSize_pos (n : Node) : 0 < nodeSize n.
Proof. destruct n; simpl; lia. Qed.

Lemma contains_In (cs : list string) (c : string) : contains cs c = true <-> In c cs.
Proof.
  unfold contains. rewrite existsb_exists. split.
  - intros (x & Hx & Heq). apply String.eqb_eq in Heq. by subst.
  - intros Hin. exists c. split; [done | apply String.eqb_refl].
Qed.

Lemma optEqb_Some (w : string) (have : option string) :
  optEqb (Some w) have = true <-> have = Some w.
Proof.
  unfold optEqb. destruct have as [h|]; [|split; discriminate].
  rewrite String.eqb_eq. split; [by intros -> | by intros [= ->]].
Qed.

Lemma matchesCompound_tagClass (t c : string) (e : Node) :
  matchesCompound (tagClass t c) e = true <-> localName e = Some t /\ In c (classList e).
Proof.
  destruct e as [s | t' cs attrs ks].
  - split; [discriminate | by intros [[=] _]].
  - unfold matchesCompound, tagClass.
    cbn [selTag selId selClasses selAttrs forallb localName classList].
    rewrite !andb_true_r, andb_true_iff, optEqb_Some, contains_In. done.
Qed.

Lemma matchesCompound_navItem (depth : nat) (e : Node) :
  matchesCompound
    {| selTag := Some "li"; selId := None; selClasses := ["nav-item"];
       selAttrs := [("data-depth", pretty depth)] |} e = true
  <-> isNavItem depth e.
Proof.
  unfold isNavItem. destruct e as [s | t cs attrs ks].
  - split; [discriminate | by intros [[=] _]].
  - unfold matchesCompound.
    cbn [selTag selId selClasses selAttrs forallb localName classList fst snd].
    rewrite !andb_true_r, !andb_true_iff, !optEqb_Some, contains_In. tauto.
Qed.

(** What the selector [ul.nav-list > li.nav-item[data-depth="depth"]]
    asks of an element and of its parent. *)
Lemma navItemSelector_matches (depth : nat) (anc : list Node) (e : Node) :
  matchesSelector (navItemSelector depth) anc e = true
  <-> isNavItem depth e /\ exists p anc', anc = p :: anc' /\ isNavList p.
Proof.
  unfold navItemSelector, isNavList. cbn [matchesSelector].
  rewrite andb_true_iff, matchesCompound_navItem.
  destruct anc as [|p anc'].
  - split; [by intros [_ [=]] | by intros [_ (p & anc' & [=] & _)]].
  - rewrite andb_true_r, matchesCompound_tagClass. split.
    + intros [Hc Hp]. split; [done|]. by exists p, anc'.
    + by intros [Hc (p' & anc'' & [= <- <-] & Hp)].
Qed.

(** The elements the selector of [recursiveDepthSearch] returns. *)
Lemma navItems_selected (elem : Node) (depth : nat) (c : Node) :
  In c (querySelectorAll elem (navItemSelector depth))
  <-> exists p anc, In (p :: anc, c) (descendants [] elem)
                    /\ isNavList p /\ isNavItem depth c.
Proof.
  unfold querySelectorAll. rewrite in_map_iff. split.
  - intros ([a c'] & <- & Hin). apply filter_In in Hin as [Hin Hm]. cbn [fst snd] in *.
    apply navItemSelector_matches in Hm as [Hc (p & anc & -> & Hp)].
    by exists p, anc.
  - intros (p & anc & Hin & Hp & Hc). exists (p :: anc, c). split; [done|].
    apply filter_In. split; [done|]. cbn [fst snd].
    apply navItemSelector_matches. split; [done|]. by exists p, anc.
Qed.

(** ** Extracting the navigation tree *)

Lemma forEachChild_ext (f g : Node -> option (Completion NavData)) (elems : list Node) :
  (forall c, In c elems -> f c = g c) ->
  forall acc, forEachChild f elems acc = forEachChild g elems acc.
Proof.
  induction elems as [|c rest IH]; intros Hfg acc; simpl; [done|].
  rewrite <- (Hfg c) by by left.
  destruct (f c) as [[retData | e]|]; try done.
  apply IH. intros c' Hc'. apply Hfg. by right.
Qed.

Lemma forEachChild_is_Some (f : Node -> option (Completion NavData)) (elems : list Node) :
  (forall c, In c elems -> is_Some (f c)) ->
  forall acc, is_Some (forEachChild f elems acc).
Proof.
  induction elems as [|c rest IH]; intros Hf acc; simpl; [done|].
  destruct (Hf c) as [[retData | e] ->]; [by left | | done].
  apply IH. intros c' Hc'. apply Hf. by right.
Qed.

Lemma forEachChild_Normal (f : Node -> option (Completion NavData)) (elems : list Node) :
  forall acc cs,
    forEachChild f elems acc = Some (Normal cs) ->
    exists cs', cs = acc ++ cs'
                /\ Forall2 (fun c n => f c = Some (Normal n)) elems cs'.
Proof.
  induction elems as [|c rest IH]; intros acc cs; simpl.
  - intros [= <-]. exists []. by rewrite app_nil_r.
  - destruct (f c) as [[retData | e]|] eqn:Hc; try done.
    intros (cs' & -> & Hall)%IH. exists (retData :: cs').
    rewrite <- app_assoc. split; [done|]. by constructor.
Qed.

Lemma Forall2_impl_In {A B : Type} (P Q : A -> B -> Prop) (l : list A) (k : list B) :
  Forall2 P l k -> (forall a b, In a l -> P a b -> Q a b) -> Forall2 Q l k.
Proof.
  induction 1 as [|a b l k Hab _ IH]; intros Himp; constructor.
  - apply Himp; [by left | done].
  - apply IH. intros a' b' Hin. apply Himp. by right.
Qed.

(** More fuel than the size of the element changes nothing. *)
Lemma recursiveDepthSearchFuel_stable (env : Env) (f1 : nat) :
  forall f2 elem depth data,
    nodeSize elem <= f1 -> nodeSize elem <= f2 ->
    recursiveDepthSearchFuel env f1 elem depth data
    = recursiveDepthSearchFuel env f2 elem depth data.
Proof.
  induction f1 as [|f1 IH]; intros f2 elem depth data H1 H2.
  - pose proof (nodeSize_pos elem). lia.
  - destruct f2 as [|f2]; [pose proof (nodeSize_pos elem); lia|].
    simpl. destruct (querySelector elem [tag "a"]) as [a|]; [|done].
    destruct (Nat.eqb _ 0); [done|].
    rewrite (forEachChild_ext _
               (fun childElem => recursiveDepthSearchFuel env f2 childElem (depth + 1) None));
      [done|].
    intros c Hc%querySelectorAll_smaller. apply IH; lia.
Qed.

(** With the size of the element as fuel the search returns. *)
Lemma recursiveDepthSearchFuel_total (env : Env) (fuel : nat) :
  forall elem depth data,
    nodeSize elem <= fuel ->
    is_Some (recursiveDepthSearchFuel env fuel elem depth data).
Proof.
  induction fuel as [|fuel IH]; intros elem depth data Hle.
  - pose proof (nodeSize_pos elem). lia.
  - simpl. destruct (querySelector elem [tag "a"]) as [a|]; [|done].
    destruct (Nat.eqb _ 0); [done|].
    destruct (forEachChild_is_Some
                (fun childElem => recursiveDepthSearchFuel env fuel childElem (depth + 1) None)
                (querySelectorAll elem (navItemSelector depth))) with (acc := @nil NavData)
      as [[cs | e] ->]; try done.
    intros c Hc%querySelectorAll_smaller. apply IH. lia.
Qed.

Lemma recursiveDepthSearch_fuel (env : Env) (fuel : nat) (elem : Node) (depth : nat)
    (data : option Seed) :
  nodeSize elem <= fuel ->
  recursiveDepthSearchFuel env fuel elem depth data
  = Some (recursiveDepthSearch env elem depth data).
Proof.
  intros Hle. unfold recursiveDepthSearch.
  rewrite (recursiveDepthSearchFuel_stable env fuel (nodeSize elem)) by done.
  by destruct (recursiveDepthSearchFuel_total env (nodeSize elem) elem depth data) as [c ->].
Qed.

(** The entry built for an element has the text, the href and the class
    mark of the first anchor below the element; the third argument of the
    call plays no part. *)
Lemma recursiveDepthSearch_anchor (env : Env) (elem : Node) (depth : nat) (data : option Seed)
    (node : NavData) :
  recursiveDepthSearch env elem depth data = Normal node ->
  exists a, querySelector elem [tag "a"] = Some a
            /\ title node = textContent a
            /\ href node = hrefProp env a
            /\ external node = contains (classList a) "link-external".
Proof.
  intros Hrun.
  pose proof (recursiveDepthSearch_fuel env (nodeSize elem) elem depth data (le_n _)) as Hf.
  rewrite Hrun in Hf. destruct (nodeSize elem) as [|fuel]; [done|].
  simpl in Hf. destruct (querySelector elem [tag "a"]) as [a|]; [|done].
  exists a. split; [done|].
  destruct (Nat.eqb _ 0); [by injection Hf as <-|].
  destruct (forEachChild _ _ _) as [[cs | e]|]; try done.
  by injection Hf as <-.
Qed.

(** C3 (as amended): called with depth [d], the extraction takes as
    children exactly the descendants of the container that are
    [li.nav-item] elements with a [ul.nav-list] parent and whose depth
    marker is [d] itself, recurses into each of them with [d + 1] and keeps
    their document order; with no such descendant the entry is a leaf. *)
Theorem recursiveDepthSearch_children (env : Env) (elem : Node) (depth : nat)
    (data : option Seed)
    (node : NavData) :
  recursiveDepthSearch env elem depth data = Normal node ->
  let childElems := querySelectorAll elem (navItemSelector depth) in
  (forall c, In c childElems
             <-> exists p anc, In (p :: anc, c) (descendants [] elem)
                               /\ isNavList p /\ isNavItem depth c)
  /\ (childElems = [] -> childData node = None)
  /\ (childElems <> [] ->
      exists cs, childData node = Some cs
                 /\ Forall2 (fun childElem child =>
                               recursiveDepthSearch env childElem (depth + 1) None = Normal child)
                            childElems cs).
Proof.
  intros Hrun childElems. split; [apply navItems_selected|].
  pose proof (recursiveDepthSearch_fuel env (nodeSize elem) elem depth data (le_n _)) as Hf.
  rewrite Hrun in Hf. destruct (nodeSize elem) as [|fuel] eqn:Hsize; [done|].
  simpl in Hf. destruct (querySelector elem [tag "a"]) as [a|]; [|done].
  fold childElems in Hf. split.
  - intros Hnil. rewrite Hnil in Hf. simpl in Hf. by injection Hf as <-.
  - intros Hne.
    destruct (Nat.eqb (length childElems) 0) eqn:Hlen.
    { apply Nat.eqb_eq in Hlen. by destruct childElems. }
    destruct (forEachChild _ _ _) as [[cs | e]|] eqn:Hloop; try done.
    injection Hf as <-. exists cs. split; [done|].
    apply forEachChild_Normal in Hloop as (cs' & -> & Hall). simpl.
    eapply Forall2_impl_In; [exact Hall|].
    intros childElem child Hin%querySelectorAll_smaller Hc. cbv beta in Hc.
    rewrite (recursiveDepthSearch_fuel env fuel) in Hc by lia. by injection Hc.
Qed.

(** Applied to the entry C of the sample menu with depth 2: its children
    are the items marked 2. *)
Lemma recursiveDepthSearch_children_witness :
  exists cs, childData Sample.entryC = Some cs
             /\ Forall2 (fun childElem child =>
                           recursiveDepthSearch Sample.site childElem (2 + 1) None
                           = Normal child)
                        (querySelectorAll Sample.itemC (navItemSelector 2)) cs.
Proof.
  assert (Hrun : recursiveDepthSearch Sample.site Sample.itemC 2 None = Normal Sample.entryC)
    by (vm_compute; reflexivity).
  destruct (recursiveDepthSearch_children Sample.site Sample.itemC 2 None Sample.entryC Hrun)
    as (_ & _ & Hchildren).
  apply Hchildren. vm_compute. discriminate.
Defined.

(** C3 (as stated) fails on the entry C of the sample menu: extracted with
    depth 1 it is a leaf, although it has a child item whose marker is
    1 + 1; the item becomes a child when the depth passed in is 2. *)
Lemma recursiveDepthSearch_marker_is_depth :
  querySelectorAll Sample.itemC (navItemSelector (1 + 1)) = [Sample.itemD]
  /\ recursiveDepthSearch Sample.site Sample.itemC 1 None = Normal (Sample.leaf "C" "/c.html" false)
  /\ recursiveDepthSearch Sample.site Sample.itemC 2 None = Normal Sample.entryC.
Proof. repeat split; vm_compute; reflexivity. Qed.

(** ** Resolving the links *)

Lemma resolve_empty_iff (h b : string) : resolve h b = "" <-> h = "".
Proof.
  split; [|by intros ->].
  intros Hr. destruct (truthy h) eqn:Hh.
  - pose proof (resolve_truthy h b Hh) as Ht. by rewrite Hr in Ht.
  - by destruct h.
Qed.

Lemma recursiveAnchorProcess_resolve_root (baseURL : string) (d : NavData) :
  let d' := fst (recursiveAnchorProcess (resolveCallback baseURL) d tt) in
  title d' = title d /\ href d' = resolve (href d) baseURL /\ external d' = external d.
Proof.
  destruct d as [t h e [cs|]]; simpl; [|done].
  by destruct (forEachData _ cs tt).
Qed.

(** C1: the code breaks the claim.  An href that is already absolute is
    prefixed with the base like any other, and resolving the result of a
    resolution prefixes it once more. *)
Theorem resolve_prefixes_absolute_href :
  resolve "https://x.com/a" "https://docs.example.com"
  = "https://docs.example.com/https://x.com/a"
  /\ resolve (resolve "/guide/intro" "https://docs.example.com") "https://docs.example.com"
     = "https://docs.example.com/https://docs.example.com/guide/intro"
  /\ resolve (resolve "/guide/intro" "https://docs.example.com") "https://docs.example.com"
     <> resolve "/guide/intro" "https://docs.example.com".
Proof. repeat split; vm_compute; congruence. Qed.

(** ** The root of the tree *)

(** C9 (as amended): the root of the tree that the extraction returns is
    built like every other entry, from the first anchor below the
    [nav.nav-menu] element: its title is the text of that anchor and its
    href is the href of that anchor after link resolution, so either is
    empty only if the anchor's is. *)
Theorem getSpringBootDocsNavData_root (env : Env) (baseURL : string) (root : NavData) :
  snd (getSpringBootDocsNavData env baseURL) = Normal root ->
  exists htmlData rootNavElem a,
    httpGet env (stripSlash baseURL) = Normal htmlData
    /\ querySelector (parseHtml env htmlData) [tagClass "nav" "nav-menu"] = Some rootNavElem
    /\ querySelector rootNavElem [tag "a"] = Some a
    /\ title root = textContent a
    /\ href root = resolve (hrefProp env a) (stripSlash baseURL)
    /\ (href root = "" <-> hrefProp env a = "").
Proof.
  unfold getSpringBootDocsNavData, getHtmlData, convertHtmlToDOM. cbn [fst snd].
  destruct (httpGet env (stripSlash baseURL)) as [htmlData | e]; [|done].
  cbn [mbind completion_bind].
  destruct (querySelector (parseHtml env htmlData) _) as [rootNavElem|] eqn:Hnav; [|done].
  destruct (recursiveDepthSearch env rootNavElem 1 _) as [refinedData | e] eqn:Hsearch; [|done].
  cbn [snd]. intros [= <-].
  apply recursiveDepthSearch_anchor in Hsearch as (a & Ha & Ht & Hh & _).
  destruct (recursiveAnchorProcess_resolve_root (stripSlash baseURL) refinedData)
    as (Ht' & Hh' & _).
  exists htmlData, rootNavElem, a.
  rewrite Ht', Hh', Ht, Hh. repeat split; try done; apply resolve_empty_iff.
Qed.

(** On the sample site the root carries the title link of the menu. *)
Lemma getSpringBootDocsNavData_root_witness :
  exists htmlData rootNavElem a,
    httpGet Sample.site (stripSlash "https://docs.example.com") = Normal htmlData
    /\ querySelector (parseHtml Sample.site htmlData) [tagClass "nav" "nav-menu"]
       = Some rootNavElem
    /\ querySelector rootNavElem [tag "a"] = Some a
    /\ "Spring Boot" = textContent a
    /\ "https://docs.example.com/index.html"
       = resolve (hrefProp Sample.site a) (stripSlash "https://docs.example.com")
    /\ ("https://docs.example.com/index.html" = "" <-> hrefProp Sample.site a = "").
Proof.
  destruct (snd (getSpringBootDocsNavData Sample.site "https://docs.example.com"))
    as [root | e] eqn:Hrun; [|vm_compute in Hrun; discriminate].
  pose proof (getSpringBootDocsNavData_root Sample.site "https://docs.example.com" root Hrun)
    as Hroot.
  vm_compute in Hrun. injection Hrun as <-. exact Hroot.
Defined.

(** C9 (as stated) fails on the sample site: the root of the extracted
    tree has the title and the href of the first link of the menu, before
    and after link resolution. *)
Lemma root_not_synthetic :
  (exists root, recursiveDepthSearch Sample.site Sample.menu 1
                  (Some {| seedChildData := [] |}) = Normal root
                /\ title root = "Spring Boot" /\ href root = "index.html")
  /\ (exists root, snd (getSpringBootDocsNavData Sample.site "https://docs.example.com")
                   = Normal root
                   /\ title root = "Spring Boot"
                   /\ href root = "https://docs.example.com/index.html"
                   /\ title root <> "" /\ href root <> "").
Proof.
  split; eexists; (split; [vm_compute; reflexivity|]); repeat split; done.
Qed.

(** ** The combined index *)

Lemma dom_setProperty (m : gmap string Index.Entry) (key : string) (v : Index.Entry) :
  dom (setProperty m key v) = dom m ∪ list_to_set (storedKeys [key]).
Proof.
  unfold setProperty, storedKeys. simpl.
  destruct (String.eqb key "__proto__"); simpl.
  - by rewrite (right_id_L ∅ (∪)).
  - by rewrite dom_insert_L, (right_id_L ∅ (∪)), (comm_L (∪)).
Qed.

Lemma storedKeys_cons (key : string) (keys : list string) :
  storedKeys (key :: keys) = storedKeys [key] ++ storedKeys keys.
Proof. unfold storedKeys. simpl. by destruct (negb _). Qed.

Lemma dom_foldl_setProperty (arr : list ArticleData) :
  forall m : gmap string Index.Entry,
    dom (foldl (fun all a => setProperty all (Article.title a) (entryOf a)) m arr)
    = dom m ∪ list_to_set (storedKeys (map Article.title arr)).
Proof.
  induction arr as [|a arr IH]; intros m; cbn [foldl map].
  - simpl. by rewrite (right_id_L ∅ (∪)).
  - rewrite IH, dom_setProperty.
    rewrite (storedKeys_cons (Article.title a) (map Article.title arr)).
    by rewrite list_to_set_app_L, (assoc_L (∪)).
Qed.

Lemma dom_buildIndex (arr : list ArticleData) :
  dom (buildIndex arr) = list_to_set (storedKeys (map Article.title arr)).
Proof.
  unfold buildIndex. change (fun allArticleData articleData => _)
    with (fun all a => setProperty all (Article.title a) (entryOf a)).
  by rewrite dom_foldl_setProperty, dom_empty_L, (left_id_L ∅ (∪)).
Qed.

Lemma size_list_to_set_le (l : list string) :
  size (list_to_set l : gset string) <= length l.
Proof.
  induction l as [|x l IH]; cbn [length].
  - by rewrite list_to_set_nil, size_empty.
  - rewrite list_to_set_cons.
    destruct (decide (x ∈ (list_to_set l : gset string))) as [Hin | Hnin].
    + rewrite (subseteq_union_1_L {[x]} (list_to_set l)); [lia|].
      by apply singleton_subseteq_l.
    + rewrite size_union by by apply disjoint_singleton_l.
      rewrite size_singleton. lia.
Qed.

Lemma storedKeys_length (keys : list string) : length (storedKeys keys) <= length keys.
Proof. apply List.filter_length_le. Qed.

Lemma storedKeys_id (keys : list string) :
  ~ In "__proto__" keys -> storedKeys keys = keys.
Proof.
  induction keys as [|k keys IH]; intros Hnin; [done|].
  unfold storedKeys. simpl.
  destruct (String.eqb k "__proto__") eqn:Hk.
  - apply String.eqb_eq in Hk. exfalso. apply Hnin. by left.
  - simpl. f_equal. apply IH. intros Hin. apply Hnin. by right.
Qed.

(** C5 (as amended): the index has one entry for every distinct title
    among the fetched documents (a later document replaces an earlier one
    with the same title, and the key [__proto__] is never stored); it never
    has more entries than there are fetched documents, and it has as many
    when their titles are pairwise different and none is [__proto__]. *)
Theorem aggregate_size (results : list (option ArticleData)) :
  size (aggregate results)
  = size (list_to_set (storedKeys (successTitles results)) : gset string)
  /\ size (aggregate results) <= length (filterBoolean results)
  /\ (NoDup (successTitles results) -> ~ In "__proto__" (successTitles results) ->
      size (aggregate results) = length (filterBoolean results)).
Proof.
  unfold aggregate, successTitles.
  assert (Hsize : size (buildIndex (filterBoolean results))
                  = size (list_to_set (storedKeys (map Article.title (filterBoolean results)))
                          : gset string)).
  { rewrite <- dom_buildIndex. symmetry. apply size_dom. }
  split; [done|]. split.
  - rewrite Hsize.
    etrans; [apply size_list_to_set_le|].
    etrans; [apply storedKeys_length|]. by rewrite length_map.
  - intros Hnd Hproto. rewrite Hsize, storedKeys_id by done.
    rewrite size_list_to_set by done. by rewrite length_map.
Qed.

(** Three results, one of them a failure, two different titles. *)
Lemma aggregate_size_witness :
  size (aggregate [Some (Sample.doc "u1" "Overview"); None; Some (Sample.doc "u3" "Install")])
  = 2.
Proof.
  apply (aggregate_size
           [Some (Sample.doc "u1" "Overview"); None; Some (Sample.doc "u3" "Install")]).
  - apply NoDup_ListNoDup. vm_compute.
    constructor; [intros [H | []]; discriminate|].
    constructor; [intros []|]. constructor.
  - vm_compute. intros [H | [H | []]]; discriminate.
Defined.

(** C5 (as stated) fails when two fetched documents have the same title:
    two successes, one entry. *)
Lemma aggregate_duplicate_title :
  let results := [Some (Sample.doc "u1" "Overview"); Some (Sample.doc "u2" "Overview")] in
  length (filterBoolean results) = 2
  /\ size (aggregate results) = 1
  /\ size (aggregate results) <> length (filterBoolean results).
Proof. vm_compute. repeat split; congruence. Qed.

(** ** One request settles *)

Lemma renders_app (t1 t2 : list Event) : renders (t1 ++ t2) = renders t1 ++ renders t2.
Proof. apply omap_app. Qed.
Lemma requests_app (t1 t2 : list Event) : requests (t1 ++ t2) = requests t1 ++ requests t2.
Proof. apply omap_app. Qed.
Lemma delays_app (t1 t2 : list Event) : delays (t1 ++ t2) = delays t1 ++ delays t2.
Proof. apply omap_app. Qed.

(** [completedCount++; progress.update(completedCount)] on a terminal
    while the bar is not full: one report, with the new counter. *)
Lemma countAndReport_spec (env : Env) (n : nat) (st : MainState) :
  isTTY env = true -> inStep n st -> completedCount st < n ->
  exists st',
    countAndReport env st = (Normal tt, st')
    /\ completedCount st' = S (completedCount st)
    /\ inStep n st'
    /\ articleDataArr st' = articleDataArr st
    /\ batches st' = batches st
    /\ trace st' = trace st ++ [Render (S (completedCount st)) n].
Proof.
  intros Htty (Ht & Hc & Hf) Hlt. unfold countAndReport, ProgressBar.update.
  rewrite Htty, Hf, Ht, Hc, andb_true_r.
  destruct (Nat.leb n (completedCount st)) eqn:Hle; [apply Nat.leb_le in Hle; lia|].
  unfold ProgressBar.render. eexists. split; [reflexivity|].
  unfold inStep. simpl. by rewrite Ht, Hf.
Qed.

(** On a terminal a request that settles always leaves a value to
    [Promise.all], the document or [null], and is counted and reported
    once. *)
Lemma settleTask_spec (env : Env) (n : nat) (url : string) (st : MainState) :
  isTTY env = true -> inStep n st -> completedCount st < n ->
  exists st',
    settleTask env url st = (Normal (taskResult env url), st')
    /\ completedCount st' = S (completedCount st)
    /\ inStep n st'
    /\ articleDataArr st' = articleDataArr st
    /\ batches st' = batches st
    /\ trace st' = trace st ++ settleEvents env url (completedCount st) n.
Proof.
  intros Htty Hin Hlt.
  unfold settleTask, getSpringBootDocsArticleData, taskResult, settleEvents.
  cbn [onSettle outcome].
  destruct (articleOutcome env url) as [articleData | error].
  - cbn [then_ catch_]. unfold onFulfilled.
    assert (Hin' : inStep n (emit [] st)) by done.
    destruct (countAndReport_spec env n (emit [] st) Htty Hin' Hlt)
      as (st' & -> & Hc & Hs & Ha & Hb & Ht).
    exists st'. split; [done|]. split_and!; try done.
    rewrite Ht. simpl. by rewrite app_nil_r.
  - cbn [then_ catch_]. unfold onRejected.
    set (msg := ConsoleError (url +:+ ": " +:+ message error)).
    set (st2 := emit [msg] (emit [msg] st)).
    assert (Hin' : inStep n st2) by done.
    destruct (countAndReport_spec env n st2 Htty Hin' Hlt)
      as (st' & -> & Hc & Hs & Ha & Hb & Ht).
    exists st'. split; [done|]. split_and!; try done.
    rewrite Ht. unfold st2. simpl. by rewrite <- !app_assoc.
Qed.

Lemma settleEvents_renders (env : Env) (url : string) (c n : nat) :
  renders (settleEvents env url c n) = [(S c, n)]
  /\ requests (settleEvents env url c n) = []
  /\ delays (settleEvents env url c n) = [].
Proof. unfold settleEvents. by destruct (articleOutcome env url). Qed.

(** ** One batch *)

Lemma elem_of_delete_or {A : Type} (l : list A) :
  forall k x y, l !! k = Some y -> x ∈ l -> x = y \/ x ∈ delete k l.
Proof.
  induction l as [|a l IH]; intros k x y Hk Hx; [done|].
  destruct k as [|k]; simpl in *.
  - injection Hk as ->. apply elem_of_cons in Hx as [-> | Hx]; [by left | by right].
  - apply elem_of_cons in Hx as [-> | Hx]; [right; by left|].
    destruct (IH k x y Hk Hx) as [-> | Hd]; [by left | right; by right].
Qed.

Lemma promiseAll_settled {A B : Type} (f : A -> B) (l : list A) :
  promiseAll (map (fun a => Some (Normal (f a))) l) = Normal (map f l).
Proof.
  unfold promiseAll.
  assert (Hr : rejection (map (fun a => Some (Normal (f a))) l) = None)
    by (induction l as [|a l IH]; simpl; done).
  assert (Hf : fulfilment (map (fun a => Some (Normal (f a))) l) = Some (map f l))
    by (induction l as [|a l IH]; simpl; [done | by rewrite IH]).
  by rewrite Hr, Hf.
Qed.

(** On a terminal, whatever the order in which the requests of a batch
    settle, every one of them is settled, counted and reported once, and
    slot [j] ends up with the result of request [j]. *)
Lemma settleAll_spec (env : Env) (total i : nat) (batch : list string) (n : nat) :
  isTTY env = true ->
  forall pending slots st,
    length pending = n ->
    length slots = length batch ->
    (forall j url, (j, url) ∈ pending -> batch !! j = Some url) ->
    (forall j url, batch !! j = Some url ->
                   (exists u, (j, u) ∈ pending)
                   \/ slots !! j = Some (Some (Normal (taskResult env url)))) ->
    inStep total st ->
    completedCount st + n <= total ->
    exists st' evs,
      settleAll env i n pending slots st
      = (map (fun url => Some (Normal (taskResult env url))) batch, st')
      /\ completedCount st' = completedCount st + n
      /\ inStep total st'
      /\ articleDataArr st' = articleDataArr st
      /\ batches st' = batches st
      /\ trace st' = trace st ++ evs
      /\ renders evs = map (fun k => (k, total)) (seq (S (completedCount st)) n)
      /\ requests evs = []
      /\ delays evs = [].
Proof.
  intros Htty.
  induction n as [|n IH]; intros pending slots st Hlen Hslots Hpend Hdone Hin Hle.
  - exists st, []. simpl. rewrite app_nil_r, Nat.add_0_r.
    split_and!; try done. f_equal.
    apply list_eq. intros j. rewrite list_lookup_fmap.
    destruct (batch !! j) as [url|] eqn:Hj; simpl.
    + destruct (Hdone j url Hj) as [[u Hu] | Hs]; [|done].
      destruct pending; [by apply elem_of_nil in Hu | done].
    + apply lookup_ge_None. rewrite Hslots. by apply lookup_ge_None.
  - cbn [settleAll].
    set (k := settleNext env i (map fst pending) mod length pending).
    assert (Hk : k < length pending) by (apply Nat.mod_upper_bound; lia).
    destruct (lookup_lt_is_Some_2 pending k Hk) as [[j url] Hjk].
    rewrite Hjk.
    assert (Hjurl : batch !! j = Some url).
    { apply Hpend. by eapply list_elem_of_lookup_2. }
    destruct (settleTask_spec env total url st Htty Hin ltac:(lia))
      as (st1 & Hrun & Hc1 & Hin1 & Ha1 & Hb1 & Ht1).
    rewrite Hrun. cbv zeta iota.
    destruct (IH (delete k pending)
                 (<[j := Some (Normal (taskResult env url))]> slots) st1)
      as (st' & evs & Hrun' & Hc' & Hin' & Ha' & Hb' & Ht' & Hr' & Hq' & Hd').
    + rewrite length_delete by by exists (j, url). lia.
    + by rewrite length_insert.
    + intros j' url' Hin2. apply Hpend. by eapply list_elem_of_delete_inv.
    + intros j' url' Hj'.
      destruct (decide (j' = j)) as [-> | Hne].
      * right. rewrite Hjurl in Hj'. injection Hj' as <-.
        apply list_lookup_insert_eq. rewrite Hslots. by eapply lookup_lt_Some.
      * destruct (Hdone j' url' Hj') as [[u Hu] | Hs].
        -- left. exists u.
           destruct (elem_of_delete_or pending k (j', u) (j, url) Hjk Hu) as [[= ? ?] | ?];
             [done | done].
        -- right. by rewrite list_lookup_insert_ne.
    + done.
    + lia.
    + exists st', (settleEvents env url (completedCount st) total ++ evs).
      destruct (settleEvents_renders env url (completedCount st) total) as (Hr & Hq & Hd).
      rewrite renders_app, requests_app, delays_app, Hr, Hq, Hd, Hr', Hq', Hd', Hc1.
      split_and!; try done.
      * lia.
      * congruence.
      * congruence.
      * by rewrite Ht', Ht1, <- app_assoc.
Qed.

Lemma requests_HttpGet (batch : list string) : requests (map HttpGet batch) = batch.
Proof. induction batch as [|u l IH]; simpl; [done | by f_equal]. Qed.

Lemma renders_HttpGet (batch : list string) : renders (map HttpGet batch) = [].
Proof. by induction batch. Qed.

Lemma delays_HttpGet (batch : list string) : delays (map HttpGet batch) = [].
Proof. by induction batch. Qed.

Lemma onCall_requests (env : Env) (batch : list string) :
  flat_map (fun url => onCall (getSpringBootDocsArticleData env url)) batch
  = map HttpGet batch.
Proof. induction batch as [|u l IH]; simpl; [done | by f_equal]. Qed.

(** A batch on a terminal: every request is issued, then every request
    settles; the results come back in the order of the batch and
    [Promise.all] does not reject. *)
Lemma runBatch_spec (env : Env) (total i : nat) (batch : list string) (st : MainState) :
  isTTY env = true ->
  inStep total st ->
  completedCount st + length batch <= total ->
  exists st' evs,
    runBatch env i batch st = (Normal (map (taskResult env) batch), st')
    /\ completedCount st' = completedCount st + length batch
    /\ inStep total st'
    /\ articleDataArr st' = articleDataArr st
    /\ batches st' = batches st
    /\ trace st' = trace st ++ evs
    /\ renders evs = map (fun k => (k, total)) (seq (S (completedCount st)) (length batch))
    /\ requests evs = batch
    /\ delays evs = [].
Proof.
  intros Htty Hin Hle. unfold runBatch. rewrite onCall_requests.
  set (st0 := emit (map HttpGet batch) st).
  destruct (settleAll_spec env total i batch (length batch) Htty
              (imap (fun j url => (j, url)) batch)
              (replicate (length batch) None) st0)
    as (st' & evs & Hrun & Hc & Hin' & Ha & Hb & Ht & Hr & Hq & Hd).
  - apply length_imap.
  - apply length_replicate.
  - intros j url (j' & url' & [= -> ->] & Hj)%elem_of_lookup_imap. done.
  - intros j url Hj. left. exists url.
    by apply (elem_of_lookup_imap_2 (fun j url => (j, url))).
  - done.
  - done.
  - rewrite Hrun, promiseAll_settled.
    exists st', (map HttpGet batch ++ evs).
    rewrite renders_app, requests_app, delays_app, Hr, Hq, Hd.
    rewrite renders_HttpGet, requests_HttpGet, delays_HttpGet, app_nil_r.
    split_and!; try done.
    rewrite Ht. unfold st0. simpl. by rewrite <- app_assoc.
Qed.

(** ** The loop over the batches *)

Lemma ceilDiv_0 (b : nat) : 0 < b -> ceilDiv 0 b = 0.
Proof. intros Hb. unfold ceilDiv. apply Nat.div_small. lia. Qed.

Lemma ceilDiv_pred (n b : nat) : 0 < b -> 0 < n -> ceilDiv n b = S ((n - 1) / b).
Proof.
  intros Hb Hn. unfold ceilDiv.
  replace (n + b - 1) with ((n - 1) + 1 * b) by lia.
  rewrite Nat.div_add by lia. lia.
Qed.

Lemma ceilDiv_step (n b : nat) : 0 < b -> 0 < n -> ceilDiv n b = S (ceilDiv (n - b) b).
Proof.
  intros Hb Hn. rewrite (ceilDiv_pred n b) by done. f_equal.
  destruct (decide (n <= b)) as [Hle | Hgt].
  - replace (n - b) with 0 by lia. rewrite ceilDiv_0 by done.
    apply Nat.div_small. lia.
  - rewrite (ceilDiv_pred (n - b) b) by lia.
    replace (n - 1) with ((n - b - 1) + 1 * b) by lia.
    rewrite Nat.div_add by lia. lia.
Qed.

Lemma slice_take_drop {A : Type} (l : list A) (i b : nat) :
  slice l i (i + b) = take b (drop i l).
Proof. unfold slice. f_equal. lia. Qed.

Lemma batchLoop_eq (env : Env) (size : nat) (urls : list string) (fuel i : nat)
    (st : MainState) :
  batchLoop env size urls fuel i st
  = if Nat.ltb i (length urls) then
      match fuel with
      | 0 => None
      | S fuel' =>
          let batch := slice urls i (i + size) in
          let st := recordBatch batch st in
          let '(batchResults, st) := runBatch env i batch st in
          match batchResults with
          | Throw e => Some (Throw e, st)
          | Normal batchResults =>
              let st := pushArticles (filterBoolean batchResults) st in
              let st := emit [SetTimeout 500] st in
              batchLoop env size urls fuel' (i + size) st
          end
      end
    else Some (Normal tt, st).
Proof. by destruct fuel. Qed.

(** The loop from task [i] on, on a terminal: it ends without an error
    whatever the requests do, cuts the remaining tasks into batches,
    counts and reports every task once, keeps the fetched documents in
    task order and pauses after every batch. *)
Lemma batchLoop_spec (env : Env) (size : nat) (urls : list string) :
  isTTY env = true ->
  0 < size ->
  forall fuel i st,
    length urls - i <= fuel ->
    inStep (length urls) st ->
    completedCount st = i `min` length urls ->
    exists st' bs segs,
      batchLoop env size urls fuel i st = Some (Normal tt, st')
      /\ completedCount st' = length urls
      /\ inStep (length urls) st'
      /\ batches st' = batches st ++ bs
      /\ concat bs = drop i urls
      /\ length bs = ceilDiv (length urls - i) size
      /\ fullThenRest size bs
      /\ articleDataArr st'
         = articleDataArr st ++ filterBoolean (map (taskResult env) (drop i urls))
      /\ trace st' = trace st ++ flat_map (fun seg => seg ++ [SetTimeout 500]) segs
      /\ Forall2 batchSegment bs segs
      /\ renders (trace st')
         = renders (trace st)
           ++ map (fun k => (k, length urls)) (seq (S (completedCount st)) (length urls - i)).
Proof.
  intros Htty Hsize. induction fuel as [|fuel IH]; intros i st Hfuel Hin Hcount.
  - rewrite batchLoop_eq.
    destruct (Nat.ltb_spec i (length urls)) as [Hlt | Hge]; [lia|].
    exists st, [], []. rewrite drop_ge by done.
    replace (length urls - i) with 0 by lia. rewrite ceilDiv_0 by done. simpl.
    rewrite !app_nil_r. split_and!; try done. lia.
  - rewrite batchLoop_eq.
    destruct (Nat.ltb_spec i (length urls)) as [Hlt | Hge].
    2:{ exists st, [], []. rewrite drop_ge by done.
        replace (length urls - i) with 0 by lia. rewrite ceilDiv_0 by done. simpl.
        rewrite !app_nil_r. split_and!; try done. lia. }
    cbv zeta. rewrite slice_take_drop.
    set (batch := take size (drop i urls)).
    assert (Hblen : length batch = size `min` (length urls - i)).
    { unfold batch. by rewrite length_take, length_drop. }
    destruct (runBatch_spec env (length urls) i batch (recordBatch batch st) Htty)
      as (st2 & evs & Hrun & Hc2 & Hin2 & Ha2 & Hb2 & Ht2 & Hr2 & Hq2 & Hd2).
    { done. }
    { simpl. lia. }
    rewrite Hrun.
    set (st3 := emit [SetTimeout 500]
                  (pushArticles (filterBoolean (map (taskResult env) batch)) st2)).
    destruct (IH (i + size) st3)
      as (st' & bs & segs & Hloop & Hc' & Hin' & Hb' & Hcat & Hlen & Hshape & Ha' & Ht'
          & Hsegs & Hr').
    { lia. }
    { done. }
    { unfold st3. simpl. rewrite Hc2. simpl. lia. }
    exists st', (batch :: bs), (evs :: segs). rewrite Hloop.
    assert (Hdrop : drop (i + size) urls = drop size (drop i urls))
      by by rewrite drop_drop.
    split_and!; try done.
    + rewrite Hb'. unfold st3. simpl. rewrite Hb2. simpl. by rewrite <- app_assoc.
    + simpl. rewrite Hcat, Hdrop. apply take_drop.
    + simpl. rewrite Hlen, (ceilDiv_step (length urls - i) size) by lia.
      do 2 f_equal. lia.
    + destruct bs as [|b bs']; simpl; [lia|].
      split; [|done].
      destruct (decide (length urls - (i + size) = 0)) as [Hz | Hnz]; [|lia].
      rewrite Hz, ceilDiv_0 in Hlen by done. done.
    + rewrite Ha'. unfold st3. simpl. rewrite Ha2. simpl.
      rewrite <- app_assoc. f_equal.
      rewrite Hdrop. unfold filterBoolean. rewrite <- omap_app, <- map_app.
      unfold batch. by rewrite take_drop.
    + rewrite Ht'. unfold st3. simpl. rewrite Ht2. simpl. by rewrite <- !app_assoc.
    + constructor; [|done]. split_and!; try done.
      by rewrite Hr2, length_map, length_seq.
    + rewrite Hr'. unfold st3. simpl. rewrite Ht2, Hc2. simpl.
      rewrite !renders_app, Hr2. simpl. rewrite app_nil_r, <- !app_assoc. f_equal.
      rewrite <- map_app. f_equal.
      replace (length urls - i) with (length batch + (length urls - (i + size))) by lia.
      by rewrite seq_app.
Qed.

Lemma fetchAll_spec (env : Env) (size : nat) (urls : list string) :
  isTTY env = true ->
  0 < size ->
  exists st segs,
    fetchAll env size urls = Some (Normal tt, st)
    /\ completedCount st = length urls
    /\ inStep (length urls) st
    /\ concat (batches st) = urls
    /\ length (batches st) = ceilDiv (length urls) size
    /\ fullThenRest size (batches st)
    /\ articleDataArr st = filterBoolean (map (taskResult env) urls)
    /\ trace st = flat_map (fun seg => seg ++ [SetTimeout 500]) segs
    /\ Forall2 batchSegment (batches st) segs
    /\ renders (trace st) = map (fun k => (k, length urls)) (seq 1 (length urls)).
Proof.
  intros Htty Hsize. unfold fetchAll.
  set (st0 := {| completedCount := 0; progress := ProgressBar.new (length urls);
                 articleDataArr := []; batches := []; trace := [] |}).
  destruct (batchLoop_spec env size urls Htty Hsize (length urls) 0 st0)
    as (st & bs & segs & Hrun & Hc & Hin & Hb & Hcat & Hlen & Hshape & Ha & Ht & Hsegs & Hr).
  { lia. }
  { done. }
  { done. }
  exists st, segs. simpl in *. rewrite Nat.sub_0_r in *. subst bs.
  split_and!; done.
Qed.

(** ** Standard output is not a terminal *)

(** Off a terminal the counter is raised and the report then throws,
    leaving nothing in the trace. *)
Lemma countAndReport_off (env : Env) (st : MainState) :
  isTTY env = false ->
  exists st',
    countAndReport env st = (Throw ProgressBar.renderError, st')
    /\ completedCount st' = S (completedCount st)
    /\ articleDataArr st' = articleDataArr st
    /\ batches st' = batches st
    /\ trace st' = trace st.
Proof.
  intros Htty.
  unfold countAndReport, ProgressBar.update, ProgressBar.complete, ProgressBar.render.
  rewrite Htty.
  destruct (_ && _); eexists; (split; [reflexivity|]); simpl; by rewrite app_nil_r.
Qed.

(** Off a terminal every request that settles rejects its promise with
    the error of the report.  A request that yields a document is counted
    twice: by the [then] handler, whose error reaches the [catch] handler,
    and by that handler. *)
Lemma settleTask_off (env : Env) (url : string) (st : MainState) :
  isTTY env = false ->
  exists st' evs,
    settleTask env url st = (Throw ProgressBar.renderError, st')
    /\ completedCount st' = completedCount st + (if fetched env url then 2 else 1)
    /\ articleDataArr st' = articleDataArr st
    /\ batches st' = batches st
    /\ trace st' = trace st ++ evs
    /\ requests evs = [] /\ renders evs = [] /\ delays evs = [].
Proof.
  intros Htty.
  unfold settleTask, getSpringBootDocsArticleData, fetched, taskResult.
  cbn [onSettle outcome].
  destruct (articleOutcome env url) as [articleData | error].
  - cbn [then_]. unfold onFulfilled.
    destruct (countAndReport_off env (emit [] st) Htty) as (st1 & -> & Hc1 & Ha1 & Hb1 & Ht1).
    cbn [mbind completion_bind catch_]. unfold onRejected.
    set (msg := ConsoleError _).
    destruct (countAndReport_off env (emit [msg] st1) Htty)
      as (st2 & -> & Hc2 & Ha2 & Hb2 & Ht2).
    cbn [mbind completion_bind]. exists st2, [msg].
    simpl in *. rewrite app_nil_r in Ht1. split_and!; try done; try congruence. lia.
  - cbn [then_ catch_]. unfold onRejected.
    set (msg := ConsoleError _).
    destruct (countAndReport_off env (emit [msg] (emit [msg] st)) Htty)
      as (st2 & -> & Hc2 & Ha2 & Hb2 & Ht2).
    cbn [mbind completion_bind]. exists st2, [msg; msg].
    simpl in *. split_and!; try done. { lia. } by rewrite <- app_assoc in Ht2.
Qed.

Lemma rejection_insert {A : Type} (e : JsError) (n : nat) :
  forall j, j < n ->
    rejection (<[j := Some (Throw e)]> (replicate n (@None (Completion A)))) = Some e.
Proof.
  induction n as [|n IH]; intros j Hj; [lia|].
  destruct j as [|j]; [done|]. simpl. apply IH. lia.
Qed.

(** Off a terminal a batch ends with the first of its requests that
    settles: [Promise.all] rejects with the error of the report. *)
Lemma runBatch_off (env : Env) (i : nat) (batch : list string) (st : MainState) :
  isTTY env = false -> batch <> [] ->
  exists st' url,
    In url batch
    /\ runBatch env i batch st = (Throw ProgressBar.renderError, st')
    /\ completedCount st' = completedCount st + (if fetched env url then 2 else 1)
    /\ articleDataArr st' = articleDataArr st
    /\ batches st' = batches st
    /\ requests (trace st') = requests (trace st) ++ batch
    /\ renders (trace st') = renders (trace st)
    /\ delays (trace st') = delays (trace st).
Proof.
  intros Htty Hne. unfold runBatch. rewrite onCall_requests.
  set (st0 := emit (map HttpGet batch) st).
  set (pending := imap (fun j url => (j, url)) batch).
  assert (Hlen : length pending = length batch) by apply length_imap.
  destruct (length batch) as [|n] eqn:Hn; [by destruct batch|].
  cbn [settleAll].
  set (k := settleNext env i (map fst pending) mod length pending).
  assert (Hk : k < length pending) by (apply Nat.mod_upper_bound; lia).
  destruct (lookup_lt_is_Some_2 pending k Hk) as [[j url] Hjk].
  rewrite Hjk.
  assert (Hj : batch !! j = Some url).
  { apply list_elem_of_lookup_2 in Hjk.
    by apply elem_of_lookup_imap in Hjk as (j' & url' & [= -> ->] & ?). }
  destruct (settleTask_off env url st0 Htty)
    as (st' & evs & -> & Hc & Ha & Hb & Ht & Hq & Hr & Hd).
  cbv zeta iota. unfold promiseAll.
  rewrite rejection_insert by (rewrite <- Hn; by eapply lookup_lt_Some).
  exists st', url. rewrite Ht. unfold st0. simpl.
  rewrite !requests_app, !renders_app, !delays_app, Hq, Hr, Hd.
  rewrite requests_HttpGet, renders_HttpGet, delays_HttpGet, !app_nil_r.
  split_and!; try done.
  apply list_elem_of_In. by eapply list_elem_of_lookup_2.
Qed.

(** Off a terminal a run over at least one task stops in its first batch:
    the requests of that batch have gone out, one of them has settled, and
    the error of the report leaves the loop before any document is kept
    and before any pause. *)
Lemma fetchAll_off (env : Env) (size : nat) (urls : list string) :
  isTTY env = false -> 0 < size -> urls <> [] ->
  exists st url,
    In url (take size urls)
    /\ fetchAll env size urls = Some (Throw ProgressBar.renderError, st)
    /\ completedCount st = (if fetched env url then 2 else 1)
    /\ articleDataArr st = []
    /\ batches st = [take size urls]
    /\ requests (trace st) = take size urls
    /\ renders (trace st) = []
    /\ delays (trace st) = [].
Proof.
  intros Htty Hsize Hne. unfold fetchAll.
  set (st0 := {| completedCount := 0; progress := ProgressBar.new (length urls);
                 articleDataArr := []; batches := []; trace := [] |}).
  rewrite batchLoop_eq.
  destruct (Nat.ltb_spec 0 (length urls)) as [Hlt | Hge];
    [|destruct urls; [done | simpl in Hge; lia]].
  destruct (length urls) as [|fuel] eqn:Hlen; [lia|].
  cbv zeta. rewrite slice_take_drop, drop_0.
  destruct (runBatch_off env 0 (take size urls) (recordBatch (take size urls) st0) Htty)
    as (st & url & Hin & -> & Hc & Ha & Hb & Hq & Hr & Hd).
  { destruct urls; [done|]. by destruct size; [lia|]. }
  exists st, url. split_and!; done.
Qed.

(** Whatever the requests do and wherever the output goes, the loop ends,
    and the only error that can leave it is the error of the report. *)
Lemma fetchAll_outcome (env : Env) (size : nat) (urls : list string) :
  0 < size ->
  exists c st,
    fetchAll env size urls = Some (c, st)
    /\ (c = Normal tt
        \/ (c = Throw ProgressBar.renderError /\ isTTY env = false /\ urls <> [])).
Proof.
  intros Hsize. destruct (isTTY env) eqn:Htty.
  - destruct (fetchAll_spec env size urls Htty Hsize) as (st & segs & -> & _).
    exists (Normal tt), st. split; [done | by left].
  - destruct urls as [|u urls].
    + eexists _, _. split; [reflexivity | by left].
    + destruct (fetchAll_off env size (u :: urls) Htty Hsize ltac:(done))
        as (st & url & _ & -> & _).
      exists (Throw ProgressBar.renderError), st. split; [done | by right].
Qed.


Lemma segments_requests (bs : list (list string)) (segs : list (list Event)) :
  Forall2 batchSegment bs segs ->
  requests (flat_map (fun seg => seg ++ [SetTimeout 500]) segs) = concat bs.
Proof.
  induction 1 as [|b seg bs segs (Hq & _ & _) _ IH]; simpl; [done|].
  rewrite !requests_app, Hq, IH. simpl. by rewrite app_nil_r.
Qed.

Lemma segments_delays (bs : list (list string)) (segs : list (list Event)) :
  Forall2 batchSegment bs segs ->
  delays (flat_map (fun seg => seg ++ [SetTimeout 500]) segs) = replicate (length bs) 500.
Proof.
  induction 1 as [|b seg bs segs (_ & Hd & _) _ IH]; simpl; [done|].
  rewrite !delays_app, Hd, IH. simpl. done.
Qed.

Lemma segments_last (segs : list (list Event)) :
  segs <> [] ->
  last (flat_map (fun seg => seg ++ [SetTimeout 500]) segs) = Some (SetTimeout 500).
Proof.
  induction segs as [|seg segs IH]; intros Hne; [done|]. simpl.
  destruct segs as [|seg' segs].
  - simpl. rewrite app_nil_r. apply last_snoc.
  - rewrite last_app, IH by done. done.
Qed.

(** ** The run over all tasks *)







(** C4 (as amended): the loop pauses after every batch, the last one
    included.  With the progress shown on a terminal the trace of a run
    is, batch after batch, the requests and progress reports of the batch
    followed by one pause of 500 ms; there are as many pauses as batches,
    [ceil(N/B)], and a run with at least one task ends with a pause. *)
Theorem fetchAll_delays (env : Env) (size : nat) (urls : list string) :
  isTTY env = true ->
  0 < size ->
  exists st segs,
    fetchAll env size urls = Some (Normal tt, st)
    /\ trace st = flat_map (fun seg => seg ++ [SetTimeout 500]) segs
    /\ Forall2 batchSegment (batches st) segs
    /\ delays (trace st) = replicate (ceilDiv (length urls) size) 500
    /\ (urls <> [] -> last (trace st) = Some (SetTimeout 500)).
Proof.
  intros Htty Hsize.
  destruct (fetchAll_spec env size urls Htty Hsize)
    as (st & segs & Hrun & _ & _ & Hcat & Hlen & _ & _ & Ht & Hsegs & _).
  exists st, segs. split_and!; try done.
  - by rewrite Ht, (segments_delays _ _ Hsegs), Hlen.
  - intros Hne. rewrite Ht. apply segments_last. intros ->.
    apply Forall2_nil_inv_r in Hsegs. rewrite Hsegs in Hcat. simpl in Hcat. congruence.
Qed.

Lemma fetchAll_delays_witness :
  exists st segs,
    fetchAll Sample.site 2 Sample.sevenUrls = Some (Normal tt, st)
    /\ trace st = flat_map (fun seg => seg ++ [SetTimeout 500]) segs
    /\ Forall2 batchSegment (batches st) segs
    /\ delays (trace st) = replicate (ceilDiv (length Sample.sevenUrls) 2) 500
    /\ (Sample.sevenUrls <> [] -> last (trace st) = Some (SetTimeout 500)).
Proof. apply (fetchAll_delays Sample.site 2 Sample.sevenUrls); [reflexivity | lia]. Defined.

(** C4 (as stated) fails on seven tasks in batches of two: four batches,
    four pauses, and the last event of the run is the pause after the
    fourth batch. *)
Lemma fetchAll_delay_after_final_batch :
  exists st,
    fetchAll Sample.site 2 Sample.sevenUrls = Some (Normal tt, st)
    /\ batches st = [["u1"; "u2"]; ["u3"; "u4"]; ["u5"; "u6"]; ["u7"]]
    /\ delays (trace st) = [500; 500; 500; 500]
    /\ last (trace st) = Some (SetTimeout 500).
Proof. eexists. split; [vm_compute; reflexivity|]. repeat split. Qed.

(** [main] returns: the fuel given to the batch loop is enough for the
    batch size of the program. *)
Lemma main_returns (env : Env) : is_Some (main env).
Proof.
  unfold main.
  destruct (getSpringBootDocsNavData env _) as [tr [refinedData | e]]; [|done].
  destruct (fetchAll_outcome env BATCH_SIZE (collectArticleUrls refinedData))
    as (c & st & -> & _); [unfold BATCH_SIZE; lia|].
  by destruct c.
Qed.

(** * Further properties of the code *)

(** ** Link resolution over the whole tree *)

Lemma forEachData_resolve (baseURL : string) (cs : list NavData) :
  Forall (fun c => recursiveAnchorProcess (resolveCallback baseURL) c tt
                   = (mapHref (fun h => resolve h baseURL) c, tt)) cs ->
  forEachData (recursiveAnchorProcess (resolveCallback baseURL)) cs tt
  = (map (mapHref (fun h => resolve h baseURL)) cs, tt).
Proof.
  induction 1 as [|c r Hc _ IH]; simpl; [done|]. by rewrite Hc, IH.
Qed.

Lemma resolve_walk (baseURL : string) (d : NavData) :
  fst (recursiveAnchorProcess (resolveCallback baseURL) d tt)
  = mapHref (fun h => resolve h baseURL) d.
Proof.
  induction d as [t h e | t h e cs IH] using NavData_nested_ind; simpl; [done|].
  assert (Hcs : Forall (fun c => recursiveAnchorProcess (resolveCallback baseURL) c tt
                                 = (mapHref (fun h => resolve h baseURL) c, tt)) cs).
  { eapply Forall_impl; [exact IH|]. intros c Hc. simpl in Hc.
    destruct (recursiveAnchorProcess (resolveCallback baseURL) c tt) as [c' []].
    simpl in Hc. by rewrite Hc. }
  by rewrite (forEachData_resolve baseURL cs Hcs).
Qed.

(** X1: the walk of step 6 returns the tree it was given with every href
    rewritten once by [resolve]; titles, external marks and the shape of
    the tree are untouched. *)
Theorem recursiveAnchorProcess_resolve (baseURL : string) (d : NavData) :
  recursiveAnchorProcess (resolveCallback baseURL) d tt
  = (mapHref (fun h => resolve h baseURL) d, tt).
Proof.
  pose proof (resolve_walk baseURL d) as Hwalk.
  destruct (recursiveAnchorProcess (resolveCallback baseURL) d tt) as [d' []].
  simpl in Hwalk. by rewrite Hwalk.
Qed.

Lemma truthy_resolve (h b : string) : truthy (resolve h b) = truthy h.
Proof.
  destruct (truthy h) eqn:Hh; [by apply resolve_truthy|].
  unfold resolve. by rewrite Hh.
Qed.

Lemma inDomainHrefs_mapHref_one (f : string -> string) (t h : string) (e : bool)
    (cs cs' : option (list NavData)) :
  truthy (f h) = truthy h ->
  inDomainHrefs [mkNavData t (f h) e cs'] = map f (inDomainHrefs [mkNavData t h e cs]).
Proof.
  intros Hf. unfold inDomainHrefs, inDomain. simpl. rewrite Hf.
  by destruct (truthy h && negb e).
Qed.

Lemma inDomainHrefs_mapHref (f : string -> string) :
  (forall h, truthy (f h) = truthy h) ->
  forall d, inDomainHrefs (postorder (mapHref f d)) = map f (inDomainHrefs (postorder d)).
Proof.
  intros Hf d.
  induction d as [t h e | t h e cs IH] using NavData_nested_ind; simpl.
  - by apply inDomainHrefs_mapHref_one.
  - rewrite !inDomainHrefs_app, map_app.
    rewrite (inDomainHrefs_mapHref_one f t h e (Some cs)) by done. f_equal.
    induction IH as [|c r Hc _ IHr]; simpl; [done|].
    by rewrite !inDomainHrefs_app, map_app, Hc, IHr.
Qed.

Lemma collectArticleUrls_mapHref (baseURL : string) (d : NavData) :
  collectArticleUrls (mapHref (fun h => resolve h baseURL) d)
  = map (fun h => resolve h baseURL) (collectArticleUrls d).
Proof.
  unfold collectArticleUrls. rewrite !recursiveAnchorProcess_collect. simpl.
  apply inDomainHrefs_mapHref. intros h. apply truthy_resolve.
Qed.

(** X2: collecting the article URLs after the links were resolved gives
    the resolved forms of the URLs collected before: resolution neither
    adds nor drops nor reorders an article. *)
Theorem collectArticleUrls_resolved (baseURL : string) (d : NavData) :
  collectArticleUrls (fst (recursiveAnchorProcess (resolveCallback baseURL) d tt))
  = map (fun h => resolve h baseURL) (collectArticleUrls d).
Proof. rewrite resolve_walk. apply collectArticleUrls_mapHref. Qed.

Lemma append_cons (c : Ascii.ascii) (s t : string) :
  String c s +:+ t = String c (s +:+ t).
Proof. done. Qed.

Lemma append_assoc (s t u : string) : (s +:+ t) +:+ u = s +:+ (t +:+ u).
Proof. induction s as [|c s IH]; [done|]. by rewrite !append_cons, IH. Qed.

Lemma prefix_append (s t : string) : String.prefix s (s +:+ t) = true.
Proof. apply String.prefix_correct, substring_append_prefix. Qed.

Lemma startsWith_slash (h : string) :
  startsWith h "/" = true -> exists h', h = "/" +:+ h'.
Proof.
  unfold startsWith. intros H%String.prefix_correct.
  destruct h as [|c h']; [done|].
  change (String.length "/") with 1 in H. cbn [String.substring] in H.
  injection H as -> _. by exists h'.
Qed.

Lemma resolve_startsWith (h b : string) :
  truthy h = true -> startsWith (resolve h b) (b +:+ "/") = true.
Proof.
  intros Hh. unfold resolve. rewrite Hh.
  destruct (startsWith h "/") eqn:Hs.
  - apply startsWith_slash in Hs as [h' ->]. unfold startsWith.
    change (b +:+ "" +:+ "/" +:+ h') with (b +:+ ("/" +:+ h')).
    rewrite <- append_assoc. apply prefix_append.
  - unfold startsWith. rewrite <- append_assoc. apply prefix_append.
Qed.

Lemma collectArticleUrls_truthy (d : NavData) (u : string) :
  In u (collectArticleUrls d) -> truthy u = true.
Proof.
  unfold collectArticleUrls. rewrite recursiveAnchorProcess_collect. simpl.
  unfold inDomainHrefs.
  intros (n & <- & Hn)%in_map_iff. apply filter_In in Hn as [_ Hn].
  unfold inDomain in Hn. by apply andb_true_iff in Hn as [? _].
Qed.

(** The tree that [getSpringBootDocsNavData] returns is the extracted tree
    with its links resolved against the base URL without its slash. *)
Lemma getSpringBootDocsNavData_Normal (env : Env) (baseURL : string) (t : NavData) :
  snd (getSpringBootDocsNavData env baseURL) = Normal t ->
  exists htmlData rootNavElem refinedData,
    httpGet env (stripSlash baseURL) = Normal htmlData
    /\ querySelector (parseHtml env htmlData) [tagClass "nav" "nav-menu"] = Some rootNavElem
    /\ recursiveDepthSearch env rootNavElem 1 (Some {| seedChildData := [] |}) = Normal refinedData
    /\ t = mapHref (fun h => resolve h (stripSlash baseURL)) refinedData.
Proof.
  unfold getSpringBootDocsNavData, getHtmlData, convertHtmlToDOM. cbn [fst snd].
  destruct (httpGet env (stripSlash baseURL)) as [htmlData | e]; [|done].
  cbn [mbind completion_bind].
  destruct (querySelector (parseHtml env htmlData) _) as [rootNavElem|] eqn:Hnav; [|done].
  destruct (recursiveDepthSearch env rootNavElem 1 _) as [refinedData | e] eqn:Hsearch; [|done].
  cbn [snd]. intros [= <-]. exists htmlData, rootNavElem, refinedData.
  by rewrite resolve_walk.
Qed.

(** X3: every article URL that [main] collects from the tree returned by
    [getSpringBootDocsNavData] starts with the base URL (without its
    trailing slash) followed by a slash, whatever the hrefs of the menu
    were. *)
Theorem article_urls_start_with_base (env : Env) (baseURL : string) (t : NavData) (u : string) :
  snd (getSpringBootDocsNavData env baseURL) = Normal t ->
  In u (collectArticleUrls t) ->
  startsWith u (stripSlash baseURL +:+ "/") = true.
Proof.
  intros (htmlData & rootNavElem & refinedData & _ & _ & _ & ->)%getSpringBootDocsNavData_Normal.
  intros Hu. rewrite collectArticleUrls_mapHref in Hu.
  apply in_map_iff in Hu as (h & <- & Hh).
  apply resolve_startsWith. by eapply collectArticleUrls_truthy.
Qed.

Lemma article_urls_start_with_base_witness :
  startsWith "https://docs.example.com/c.html" (stripSlash "https://docs.example.com/" +:+ "/")
  = true.
Proof.
  destruct (snd (getSpringBootDocsNavData Sample.site "https://docs.example.com/"))
    as [t | e] eqn:Hrun; [|vm_compute in Hrun; discriminate].
  apply (article_urls_start_with_base Sample.site "https://docs.example.com/" t _ Hrun).
  vm_compute in Hrun. injection Hrun as <-. vm_compute. tauto.
Defined.

(** ** The base URL *)

Lemma substring_all (b : string) : String.substring 0 (String.length b) b = b.
Proof. induction b as [|c b IH]; simpl; [done | by rewrite IH]. Qed.

Lemma substring_split (b : string) :
  forall k, k <= String.length b ->
            String.substring 0 k b +:+ String.substring k (String.length b - k) b = b.
Proof.
  induction b as [|c b IH]; intros k Hk.
  - by destruct k.
  - destruct k as [|k]; simpl.
    + by rewrite substring_all.
    + rewrite append_cons, IH; [done|]. simpl in Hk. lia.
Qed.

Lemma endsWith_slash_dropLast (b : string) :
  endsWith b "/" = true -> dropLast b +:+ "/" = b.
Proof.
  unfold endsWith, dropLast. change (String.length "/") with 1.
  intros [Hlen Heq%String.eqb_eq]%andb_true_iff. apply Nat.leb_le in Hlen.
  pose proof (substring_split b (String.length b - 1) ltac:(lia)) as Hsplit.
  replace (String.length b - (String.length b - 1)) with 1 in Hsplit by lia.
  by rewrite Heq in Hsplit.
Qed.

(** X4: [stripSlash] removes at most one character, a final slash: either
    the base URL has no final slash and is returned as it is, or putting
    the slash back gives the base URL again. *)
Theorem stripSlash_round_trip (baseURL : string) :
  (endsWith baseURL "/" = false /\ stripSlash baseURL = baseURL)
  \/ (endsWith baseURL "/" = true /\ stripSlash baseURL +:+ "/" = baseURL).
Proof.
  unfold stripSlash. destruct (endsWith baseURL "/") eqn:He; [right | left]; split; try done.
  by apply endsWith_slash_dropLast.
Qed.

(** ** The shape of an extracted tree and the errors of the extraction *)

Lemma recursiveDepthSearchFuel_Branching (env : Env) (fuel : nat) :
  forall elem depth data node,
    recursiveDepthSearchFuel env fuel elem depth data = Some (Normal node) ->
    Branching node.
Proof.
  induction fuel as [|fuel IH]; intros elem depth data node Hrun; [done|].
  simpl in Hrun. destruct (querySelector elem [tag "a"]) as [a|]; [|done].
  destruct (Nat.eqb (length _) 0) eqn:Hlen.
  - injection Hrun as <-. constructor.
  - destruct (forEachChild _ _ _) as [[cs | e]|] eqn:Hloop; try done.
    injection Hrun as <-.
    apply forEachChild_Normal in Hloop as (cs' & -> & Hall). simpl.
    constructor.
    + intros ->. apply Forall2_nil_inv_r in Hall. by rewrite Hall in Hlen.
    + clear Hlen. induction Hall as [|c n l k Hc _ IHall]; constructor; [|done].
      by eapply IH.
Qed.

(** X5: no entry of an extracted tree has an empty [childData]: an entry
    either has no [childData] at all or at least one child, at every level
    of the tree. *)
Theorem recursiveDepthSearch_Branching (env : Env) (elem : Node) (depth : nat)
    (data : option Seed)
    (node : NavData) :
  recursiveDepthSearch env elem depth data = Normal node -> Branching node.
Proof.
  intros Hrun. eapply (recursiveDepthSearchFuel_Branching env (nodeSize elem)).
  by rewrite (recursiveDepthSearch_fuel _ _ _ _ _ (le_n _)), Hrun.
Qed.

Lemma recursiveDepthSearch_Branching_witness : Branching Sample.entryC.
Proof.
  apply (recursiveDepthSearch_Branching Sample.site Sample.itemC 2 None).
  vm_compute. reflexivity.
Defined.

Lemma forEachChild_Throw (f : Node -> option (Completion NavData))
    (ok : list Node) (c : Node) (rest : list Node) (e : JsError) :
  Forall (fun x => exists n, f x = Some (Normal n)) ok ->
  f c = Some (Throw e) ->
  forall acc, forEachChild f (ok ++ c :: rest) acc = Some (Throw e).
Proof.
  intros Hok Hc. induction Hok as [|x l [n Hx] _ IH]; intros acc; simpl.
  - by rewrite Hc.
  - rewrite Hx. apply IH.
Qed.

Lemma recursiveDepthSearch_unfold (env : Env) (elem : Node) (depth : nat)
    (data : option Seed) :
  recursiveDepthSearch env elem depth data
  = match querySelector elem [tag "a"] with
    | None => Throw (TypeError "Cannot read properties of null (reading 'textContent')")
    | Some a =>
        let leaf := {| title := textContent a; href := hrefProp env a;
                       external := contains (classList a) "link-external";
                       childData := None |} in
        let childElems := querySelectorAll elem (navItemSelector depth) in
        if Nat.eqb (length childElems) 0 then Normal leaf
        else
          match forEachChild
                  (fun childElem => Some (recursiveDepthSearch env childElem (depth + 1) None))
                  childElems [] with
          | Some (Normal cs) =>
              Normal {| title := title leaf; href := href leaf;
                        external := external leaf; childData := Some cs |}
          | Some (Throw e) => Throw e
          | None => Throw (Error "unreachable")
          end
    end.
Proof.
  pose proof (recursiveDepthSearch_fuel env (nodeSize elem) elem depth data (le_n _)) as Hf.
  destruct (nodeSize elem) as [|fuel] eqn:Hsize; [done|].
  simpl in Hf. destruct (querySelector elem [tag "a"]) as [a|]; [|congruence].
  cbv zeta.
  destruct (Nat.eqb (length (querySelectorAll elem (navItemSelector depth))) 0);
    [congruence|].
  simpl title. simpl href. simpl external.
  rewrite (forEachChild_ext _
             (fun childElem => Some (recursiveDepthSearch env childElem (depth + 1) None))) in Hf.
  - destruct (forEachChild _ _ _) as [[cs | e]|]; congruence.
  - intros c Hc%querySelectorAll_smaller. apply recursiveDepthSearch_fuel. lia.
Qed.

(** X6: an element without an anchor below it makes the extraction throw
    a [TypeError]; and when the items selected below a container are
    extracted in document order, the error of the first item that fails is
    the error of the container. *)
Theorem recursiveDepthSearch_errors (env : Env) (elem : Node) (depth : nat)
    (data : option Seed) :
  (querySelector elem [tag "a"] = None ->
   exists msg, recursiveDepthSearch env elem depth data = Throw (TypeError msg))
  /\ (forall ok c rest e,
        is_Some (querySelector elem [tag "a"]) ->
        querySelectorAll elem (navItemSelector depth) = ok ++ c :: rest ->
        Forall (fun x => exists n, recursiveDepthSearch env x (depth + 1) None = Normal n) ok ->
        recursiveDepthSearch env c (depth + 1) None = Throw e ->
        recursiveDepthSearch env elem depth data = Throw e).
Proof.
  split.
  - intros Ha. rewrite recursiveDepthSearch_unfold, Ha. eauto.
  - intros ok c rest e [a Ha] Hsel Hok Hc.
    rewrite recursiveDepthSearch_unfold, Ha. cbv zeta. rewrite Hsel.
    rewrite length_app. simpl length.
    replace (Nat.eqb (length ok + S (length rest)) 0) with false
      by (symmetry; apply Nat.eqb_neq; lia).
    rewrite (forEachChild_Throw _ ok c rest e); [done | | by rewrite Hc].
    eapply Forall_impl; [exact Hok|]. intros x [n ->]. by exists n.
Qed.

(** A menu whose second entry has no link. *)
Lemma recursiveDepthSearch_errors_witness :
  exists msg,
    recursiveDepthSearch Sample.site
      (Element "nav" ["nav-menu"] []
         [ Sample.anchor [] "index.html" "Home";
           Sample.navList [ Sample.item "1" [Sample.anchor [] "a.html" "A"];
                            Sample.item "1" [Text "no link"];
                            Sample.item "1" [Sample.anchor [] "c.html" "C"] ] ])
      1 None
    = Throw (TypeError msg).
Proof.
  eexists.
  eapply (proj2 (recursiveDepthSearch_errors Sample.site _ 1 None)
            [Sample.item "1" [Sample.anchor [] "a.html" "A"]]
            (Sample.item "1" [Text "no link"])
            [Sample.item "1" [Sample.anchor [] "c.html" "C"]]).
  - vm_compute. eauto.
  - vm_compute. reflexivity.
  - constructor; [|constructor]. eexists. vm_compute. reflexivity.
  - vm_compute. reflexivity.
Defined.

(** ** The effects of the navigation request *)

Lemma getSpringBootDocsNavData_trace (env : Env) (baseURL : string) :
  fst (getSpringBootDocsNavData env baseURL)
  = HttpGet (stripSlash baseURL)
    :: match snd (getSpringBootDocsNavData env baseURL) with
       | Normal _ => []
       | Throw error => [ConsoleError (message error)]
       end.
Proof.
  unfold getSpringBootDocsNavData, getHtmlData, convertHtmlToDOM.
  destruct (httpGet env (stripSlash baseURL)) as [htmlData | e];
    cbn [mbind completion_bind fst snd]; [|done].
  destruct (querySelector (parseHtml env htmlData) _) as [rootNavElem|]; [|done].
  by destruct (recursiveDepthSearch env rootNavElem 1 _).
Qed.

(** X7: [getSpringBootDocsNavData] sends exactly one request, to the base
    URL without its trailing slash; when it returns a tree it has logged
    nothing, and when it fails it has logged the message of the error once
    and throws that same error; an error of the request itself is passed on
    unchanged. *)
Theorem getSpringBootDocsNavData_effects (env : Env) (baseURL : string) :
  fst (getSpringBootDocsNavData env baseURL)
  = HttpGet (stripSlash baseURL)
    :: match snd (getSpringBootDocsNavData env baseURL) with
       | Normal _ => []
       | Throw error => [ConsoleError (message error)]
       end
  /\ (forall error, httpGet env (stripSlash baseURL) = Throw error ->
                    snd (getSpringBootDocsNavData env baseURL) = Throw error)
  /\ (forall htmlData,
        httpGet env (stripSlash baseURL) = Normal htmlData ->
        querySelector (parseHtml env htmlData) [tagClass "nav" "nav-menu"] = None ->
        exists msg, snd (getSpringBootDocsNavData env baseURL) = Throw (TypeError msg)).
Proof.
  unfold getSpringBootDocsNavData, getHtmlData, convertHtmlToDOM.
  destruct (httpGet env (stripSlash baseURL)) as [htmlData | e] eqn:Hget;
    cbn [mbind completion_bind fst snd].
  - destruct (querySelector (parseHtml env htmlData) _) as [rootNavElem|] eqn:Hnav.
    + destruct (recursiveDepthSearch env rootNavElem 1 _) as [refinedData | e];
        cbn [fst snd]; split_and!; try done;
        intros ? [= <-] Hnone; congruence.
    + cbn [fst snd]. split_and!; try done. intros ? [= <-] _. eauto.
  - split_and!; try done. by intros ? [= <-].
Qed.

Lemma getSpringBootDocsNavData_effects_witness :
  snd (getSpringBootDocsNavData Sample.site "https://docs.example.com/d.html/")
  = Throw (AxiosError "Request failed with status code 404").
Proof.
  apply (getSpringBootDocsNavData_effects Sample.site "https://docs.example.com/d.html/").
  vm_compute. reflexivity.
Defined.

(** ** The trailing slash of the base URL *)

(** C10: for a base URL [b] that does not end in a slash, the extraction
    called with [b] followed by one slash works with [b] itself: that
    slash is stripped (and only one: of two slashes one remains), the one
    request goes to [b], and the tree returned is the tree extracted from
    the page at [b] with every link resolved against [b].  So the run with
    [b] followed by a slash and the run with [b] are the same run: same
    events, same tree or same error. *)
Theorem getSpringBootDocsNavData_trailing_slash (env : Env) (b : string) :
  endsWith b "/" = false ->
  stripSlash (b +:+ "/") = b
  /\ stripSlash b = b
  /\ stripSlash ((b +:+ "/") +:+ "/") = b +:+ "/"
  /\ getSpringBootDocsNavData env (b +:+ "/") = getSpringBootDocsNavData env b
  /\ requests (fst (getSpringBootDocsNavData env (b +:+ "/"))) = [b]
  /\ (forall t,
        snd (getSpringBootDocsNavData env (b +:+ "/")) = Normal t ->
        exists htmlData rootNavElem refinedData,
          httpGet env b = Normal htmlData
          /\ querySelector (parseHtml env htmlData) [tagClass "nav" "nav-menu"]
             = Some rootNavElem
          /\ recursiveDepthSearch env rootNavElem 1 (Some {| seedChildData := [] |})
             = Normal refinedData
          /\ t = mapHref (fun h => resolve h b) refinedData).
Proof.
  intros Hb.
  assert (Hs : stripSlash b = b) by (unfold stripSlash; by rewrite Hb).
  assert (Hs1 : stripSlash (b +:+ "/") = b) by apply stripSlash_append_slash.
  split_and!; try done.
  - apply stripSlash_append_slash.
  - unfold getSpringBootDocsNavData. by rewrite Hs1, Hs.
  - rewrite getSpringBootDocsNavData_trace, Hs1.
    by destruct (snd (getSpringBootDocsNavData env (b +:+ "/"))).
  - intros t Ht.
    destruct (getSpringBootDocsNavData_Normal env (b +:+ "/") t Ht)
      as (htmlData & rootNavElem & refinedData & Hget & Hnav & Hsearch & Htree).
    rewrite Hs1 in Hget, Htree. by exists htmlData, rootNavElem, refinedData.
Qed.

(** On the sample site the base followed by a slash is requested without
    it, and the links of the tree carry one slash after the base. *)
Lemma getSpringBootDocsNavData_trailing_slash_witness :
  stripSlash ("https://docs.example.com" +:+ "/") = "https://docs.example.com"
  /\ getSpringBootDocsNavData Sample.site ("https://docs.example.com" +:+ "/")
     = getSpringBootDocsNavData Sample.site "https://docs.example.com"
  /\ requests (fst (getSpringBootDocsNavData Sample.site ("https://docs.example.com" +:+ "/")))
     = ["https://docs.example.com"].
Proof.
  destruct (getSpringBootDocsNavData_trailing_slash Sample.site "https://docs.example.com")
    as (Hstrip & _ & _ & Hsame & Hreq & _); [vm_compute; reflexivity|].
  split_and!; [exact Hstrip | exact Hsame | exact Hreq].
Defined.

(** ** Article pages *)

(** X8: a page yields a document exactly when the request succeeds, the
    page has an [article.doc] element and that element has an
    [h1#page-title] below it; the document then carries the requested
    address, the trimmed text of the heading, the breadcrumbs and the inner
    markup of the article. *)
Theorem articleOutcome_Normal (env : Env) (url : string) (articleData : ArticleData) :
  articleOutcome env url = Normal articleData
  <-> exists htmlData articleElem h1,
        httpGet env url = Normal htmlData
        /\ querySelector (parseHtml env htmlData) [tagClass "article" "doc"] = Some articleElem
        /\ querySelector articleElem [tagId "h1" "page-title"] = Some h1
        /\ articleData
           = {| Article.url := url;
                Article.title := trim env (textContent h1);
                Article.breadcrumbs := getArticleBreadcrumbs env articleElem;
                Article.content := innerHTML env articleElem |}.
Proof.
  unfold articleOutcome, getArticleTitle, convertHtmlToDOM. split.
  - destruct (httpGet env url) as [htmlData | e]; [|done]. cbn [mbind completion_bind].
    destruct (querySelector (parseHtml env htmlData) _) as [articleElem|] eqn:Hart; [|done].
    cbn [mbind completion_bind].
    destruct (querySelector articleElem _) as [h1|] eqn:Hh1; [|done].
    cbn [mbind completion_bind]. intros [= <-]. by exists htmlData, articleElem, h1.
  - intros (htmlData & articleElem & h1 & -> & Hart & Hh1 & ->).
    cbn [mbind completion_bind]. rewrite Hart. cbn [mbind completion_bind].
    by rewrite Hh1.
Qed.

(** X9: a request for a document can fail in three ways only: the request
    itself fails, and its error is the error of the task; the page has no
    [article.doc] element; or the article has no [h1#page-title], which
    surfaces as a [TypeError]. *)
Theorem articleOutcome_Throw (env : Env) (url : string) (error : JsError) :
  articleOutcome env url = Throw error ->
  httpGet env url = Throw error
  \/ (exists htmlData,
        httpGet env url = Normal htmlData
        /\ querySelector (parseHtml env htmlData) [tagClass "article" "doc"] = None
        /\ exists msg, error = Error msg)
  \/ (exists htmlData articleElem,
        httpGet env url = Normal htmlData
        /\ querySelector (parseHtml env htmlData) [tagClass "article" "doc"] = Some articleElem
        /\ querySelector articleElem [tagId "h1" "page-title"] = None
        /\ exists msg, error = TypeError msg).
Proof.
  unfold articleOutcome, getArticleTitle, convertHtmlToDOM.
  destruct (httpGet env url) as [htmlData | e]; cbn [mbind completion_bind].
  - destruct (querySelector (parseHtml env htmlData) _) as [articleElem|] eqn:Hart;
      cbn [mbind completion_bind].
    + destruct (querySelector articleElem _) as [h1|] eqn:Hh1;
        cbn [mbind completion_bind]; [done|].
      intros [= <-]. right. right. exists htmlData, articleElem. eauto.
    + intros [= <-]. right. left. exists htmlData. eauto.
  - intros [= <-]. by left.
Qed.

Lemma articleOutcome_Throw_witness :
  httpGet Sample.site "https://docs.example.com/c.html"
  = Throw (Error "문서 요소를 찾을 수 없습니다.")
  \/ (exists htmlData,
        httpGet Sample.site "https://docs.example.com/c.html" = Normal htmlData
        /\ querySelector (parseHtml Sample.site htmlData) [tagClass "article" "doc"] = None
        /\ exists msg, Error "문서 요소를 찾을 수 없습니다." = Error msg)
  \/ (exists htmlData articleElem,
        httpGet Sample.site "https://docs.example.com/c.html" = Normal htmlData
        /\ querySelector (parseHtml Sample.site htmlData) [tagClass "article" "doc"]
           = Some articleElem
        /\ querySelector articleElem [tagId "h1" "page-title"] = None
        /\ exists msg, Error "문서 요소를 찾을 수 없습니다." = TypeError msg).
Proof.
  apply (articleOutcome_Throw Sample.site "https://docs.example.com/c.html").
  vm_compute. reflexivity.
Defined.

(** ** The documents and the requests of a run *)

Lemma taskResult_url (env : Env) (url : string) (articleData : ArticleData) :
  taskResult env url = Some articleData -> Article.url articleData = url.
Proof.
  unfold taskResult. destruct (articleOutcome env url) as [a | e] eqn:Hout; [|done].
  intros [= <-]. revert Hout. unfold articleOutcome.
  destruct (httpGet env url) as [htmlData | e]; [|done]. cbn [mbind completion_bind].
  destruct (querySelector _ _) as [articleElem|]; [|done]. cbn [mbind completion_bind].
  destruct (getArticleTitle env articleElem) as [t | e]; [|done].
  cbn [mbind completion_bind]. by intros [= <-].
Qed.

Lemma filterBoolean_cons {A : Type} (o : option A) (l : list (option A)) :
  filterBoolean (o :: l)
  = match o with Some a => a :: filterBoolean l | None => filterBoolean l end.
Proof. by destruct o. Qed.

Lemma fetched_urls (env : Env) (urls : list string) :
  map Article.url (filterBoolean (map (taskResult env) urls))
  = List.filter (fetched env) urls.
Proof.
  induction urls as [|u urls IH]; [done|].
  cbn [map List.filter]. rewrite filterBoolean_cons. unfold fetched at 1.
  destruct (taskResult env u) as [a|] eqn:Hu; [|done].
  cbn [map]. by rewrite IH, (taskResult_url env u a Hu).
Qed.

(** X10: the documents that a run on a terminal keeps are those of the
    tasks whose request yields a document, one per such task and in task
    order: their addresses are the task list with the failed tasks left
    out. *)
Theorem fetchAll_documents (env : Env) (size : nat) (urls : list string) :
  isTTY env = true ->
  0 < size ->
  exists st,
    fetchAll env size urls = Some (Normal tt, st)
    /\ map Article.url (articleDataArr st) = List.filter (fetched env) urls.
Proof.
  intros Htty Hsize.
  destruct (fetchAll_spec env size urls Htty Hsize)
    as (st & segs & Hrun & _ & _ & _ & _ & _ & Ha & _).
  exists st. split; [done|]. by rewrite Ha, fetched_urls.
Qed.

Lemma fetchAll_documents_witness :
  exists st,
    fetchAll Sample.site 2 Sample.failingUrls = Some (Normal tt, st)
    /\ map Article.url (articleDataArr st)
       = List.filter (fetched Sample.site) Sample.failingUrls.
Proof.
  apply (fetchAll_documents Sample.site 2 Sample.failingUrls); [reflexivity | lia].
Defined.

Lemma omap_take_length {A B : Type} (f : A -> option B) (l : list A) :
  forall k, length (omap f (take k l)) <= length (omap f l).
Proof.
  induction l as [|x l IH]; intros k; [by destruct k|].
  destruct k as [|k]; [apply Nat.le_0_l|]. simpl.
  specialize (IH k). destruct (f x); simpl; [apply le_n_S|]; exact IH.
Qed.

Lemma fullThenRest_bound (size : nat) (bs : list (list string)) :
  fullThenRest size bs -> Forall (fun b => length b <= size) bs.
Proof.
  induction bs as [|b bs IH]; intros Hshape; [constructor|].
  destruct bs as [|b' bs].
  - constructor; [simpl in Hshape; lia | constructor].
  - destruct Hshape as [Hb Hrest]. constructor; [lia | by apply IH].
Qed.

Lemma segments_in_flight (size : nat) (bs : list (list string)) (segs : list (list Event)) :
  Forall2 batchSegment bs segs ->
  Forall (fun b => length b <= size) bs ->
  forall k,
    let tr := take k (flat_map (fun seg => seg ++ [SetTimeout 500]) segs) in
    length (requests tr) <= length (renders tr) + size.
Proof.
  induction 1 as [|b seg bs segs (Hq & Hd & Hr) _ IH]; intros Hbound k; simpl.
  - rewrite take_nil. simpl. lia.
  - apply Forall_cons in Hbound as [Hb Hbs]. specialize (IH Hbs).
    destruct (decide (k <= length (seg ++ [SetTimeout 500]))) as [Hle | Hgt].
    + rewrite take_app_le by done.
      pose proof (omap_take_length
                    (fun ev => match ev with HttpGet u => Some u | _ => None end)
                    (seg ++ [SetTimeout 500]) k) as Hm.
      fold (requests (take k (seg ++ [SetTimeout 500]))) in Hm.
      fold (requests (seg ++ [SetTimeout 500])) in Hm.
      rewrite requests_app, Hq in Hm. simpl in Hm. rewrite app_nil_r in Hm.
      eapply Nat.le_trans; [exact Hm|].
      generalize (length (renders (take k (seg ++ [SetTimeout 500])))). lia.
    + rewrite take_app_ge by lia.
      specialize (IH (k - length (seg ++ [SetTimeout 500]))). cbv zeta in IH.
      revert IH.
      generalize (take (k - length (seg ++ [SetTimeout 500]))
                    (flat_map (fun seg => seg ++ [SetTimeout 500]) segs)).
      intros tr IH.
      rewrite !requests_app, !renders_app, !length_app, Hq, Hr. simpl. lia.
Qed.

(** X11: at every moment of a run on a terminal at most [BATCH_SIZE]
    requests are in flight: in every initial part of the trace the
    requests sent exceed the requests settled (each reported once to the
    progress bar) by at most the batch size. *)
Theorem fetchAll_in_flight (env : Env) (size : nat) (urls : list string) :
  isTTY env = true ->
  0 < size ->
  exists st,
    fetchAll env size urls = Some (Normal tt, st)
    /\ forall k, length (requests (take k (trace st)))
                 <= length (renders (take k (trace st))) + size.
Proof.
  intros Htty Hsize.
  destruct (fetchAll_spec env size urls Htty Hsize)
    as (st & segs & Hrun & _ & _ & _ & _ & Hshape & _ & Ht & Hsegs & _).
  exists st. split; [done|]. intros k. rewrite Ht.
  apply (segments_in_flight size (batches st) segs Hsegs).
  by apply fullThenRest_bound.
Qed.

Lemma fetchAll_in_flight_witness :
  exists st,
    fetchAll Sample.site 2 Sample.sevenUrls = Some (Normal tt, st)
    /\ forall k, length (requests (take k (trace st)))
                 <= length (renders (take k (trace st))) + 2.
Proof. apply (fetchAll_in_flight Sample.site 2 Sample.sevenUrls); [reflexivity | lia]. Defined.

(** X12: a run on a terminal never marks the progress bar complete: the
    bar ends with [current] equal to [total] but [isComplete] still false,
    because [update] looks at the value of [current] from before the call;
    so [complete()] is not called during a run. *)
Theorem fetchAll_never_complete (env : Env) (size : nat) (urls : list string) :
  isTTY env = true ->
  0 < size ->
  exists st,
    fetchAll env size urls = Some (Normal tt, st)
    /\ ProgressBar.isComplete (progress st) = false
    /\ ProgressBar.current (progress st) = ProgressBar.total (progress st)
    /\ length (renders (trace st)) = length urls.
Proof.
  intros Htty Hsize.
  destruct (fetchAll_spec env size urls Htty Hsize)
    as (st & segs & Hrun & Hc & (Htot & Hcur & Hfl) & _ & _ & _ & _ & _ & _ & Hr).
  exists st. split_and!; try done.
  - by rewrite Hcur, Htot.
  - by rewrite Hr, length_map, length_seq.
Qed.

Lemma fetchAll_never_complete_witness :
  exists st,
    fetchAll Sample.site 2 Sample.sevenUrls = Some (Normal tt, st)
    /\ ProgressBar.isComplete (progress st) = false
    /\ ProgressBar.current (progress st) = ProgressBar.total (progress st)
    /\ length (renders (trace st)) = length Sample.sevenUrls.
Proof.
  apply (fetchAll_never_complete Sample.site 2 Sample.sevenUrls); [reflexivity | lia].
Defined.

(** ** Looking up the combined index *)

Lemma setProperty_lookup_ne (m : gmap string Index.Entry) (key t : string) (v : Index.Entry) :
  key <> t -> setProperty m key v !! t = m !! t.
Proof.
  intros Hne. unfold setProperty.
  destruct (String.eqb key "__proto__"); [done | by apply lookup_insert_ne].
Qed.

Lemma foldl_setProperty_lookup (arr : list ArticleData) (t : string) :
  t <> "__proto__" ->
  forall m : gmap string Index.Entry,
    foldl (fun all a => setProperty all (Article.title a) (entryOf a)) m arr !! t
    = match last (titled t arr) with
      | Some a => Some (entryOf a)
      | None => m !! t
      end.
Proof.
  intros Ht. induction arr as [|a arr IH]; intros m; [done|].
  cbn [foldl]. rewrite IH. unfold titled. cbn [List.filter]. fold (titled t arr).
  destruct (String.eqb_spec (Article.title a) t) as [Heq | Hne].
  - rewrite last_cons. destruct (last (titled t arr)); [done|].
    unfold setProperty. rewrite Heq.
    destruct (String.eqb_spec t "__proto__") as [? | _]; [done|].
    apply lookup_insert_eq.
  - destruct (last (titled t arr)); [done|]. by apply setProperty_lookup_ne.
Qed.

Lemma foldl_setProperty_proto (arr : list ArticleData) :
  forall m : gmap string Index.Entry,
    foldl (fun all a => setProperty all (Article.title a) (entryOf a)) m arr !! "__proto__"
    = m !! "__proto__".
Proof.
  induction arr as [|a arr IH]; intros m; [done|].
  cbn [foldl]. rewrite IH. unfold setProperty.
  destruct (String.eqb_spec (Article.title a) "__proto__") as [? | Hne]; [done|].
  by apply lookup_insert_ne.
Qed.

(** X13: looking a title up in the combined index gives the entry of the
    last fetched document with that title, and nothing if there is none;
    the key [__proto__] is never present. *)
Theorem buildIndex_lookup (articleDataArr : list ArticleData) (t : string) :
  (t <> "__proto__" ->
   buildIndex articleDataArr !! t = entryOf <$> last (titled t articleDataArr))
  /\ buildIndex articleDataArr !! "__proto__" = None.
Proof.
  unfold buildIndex. change (fun allArticleData articleData => _)
    with (fun all a => setProperty all (Article.title a) (entryOf a)).
  split.
  - intros Ht. rewrite foldl_setProperty_lookup by done.
    by destruct (last (titled t articleDataArr)).
  - by rewrite foldl_setProperty_proto.
Qed.

Lemma buildIndex_lookup_witness :
  buildIndex [Sample.doc "u1" "Overview"; Sample.doc "u2" "Install";
              Sample.doc "u3" "Overview"] !! "Overview"
  = Some (entryOf (Sample.doc "u3" "Overview")).
Proof.
  apply (buildIndex_lookup
           [Sample.doc "u1" "Overview"; Sample.doc "u2" "Install";
            Sample.doc "u3" "Overview"] "Overview").
  discriminate.
Defined.

(** ** The whole run *)

Lemma stripSlash_startURL : stripSlash startURL = startURL.
Proof. vm_compute. reflexivity. Qed.

(** X14: on a terminal, once the navigation tree is there, [main] ends
    normally whichever article requests fail.  It has requested the start
    page and then every collected URL once, in the order collected, has
    kept the documents of the requests that succeeded, and has built the
    index from exactly those documents. *)
Theorem main_after_navigation (env : Env) (t : NavData) :
  isTTY env = true ->
  snd (getSpringBootDocsNavData env startURL) = Normal t ->
  exists tr r,
    main env = Some (tr, Normal r)
    /\ navData r = t
    /\ requests tr = startURL :: collectArticleUrls t
    /\ articles r = filterBoolean (map (taskResult env) (collectArticleUrls t))
    /\ allArticleData r = buildIndex (articles r).
Proof.
  intros Htty Hnav. unfold main. fold startURL.
  pose proof (getSpringBootDocsNavData_trace env startURL) as Htr.
  destruct (getSpringBootDocsNavData env startURL) as [tr nav]. simpl in Hnav, Htr.
  subst nav. rewrite stripSlash_startURL in Htr.
  destruct (fetchAll_spec env BATCH_SIZE (collectArticleUrls t) Htty)
    as (st & segs & -> & _ & _ & Hcat & _ & _ & Ha & Ht & Hsegs & _);
    [unfold BATCH_SIZE; lia|].
  eexists _, _. split; [done|]. cbn [navData articles allArticleData].
  split_and!; try done.
  rewrite requests_app, Htr, Ht, (segments_requests _ _ Hsegs), Hcat. done.
Qed.

Lemma main_after_navigation_witness :
  exists tr r,
    main Sample.springSite = Some (tr, Normal r)
    /\ requests tr
       = startURL :: ["https://docs.spring.io/spring-boot/a.html";
                      "https://docs.spring.io/spring-boot/d.html";
                      "https://docs.spring.io/spring-boot/c.html";
                      "https://docs.spring.io/spring-boot/index.html"].
Proof.
  destruct (snd (getSpringBootDocsNavData Sample.springSite startURL))
    as [t | e] eqn:Hnav; [|vm_compute in Hnav; discriminate].
  destruct (main_after_navigation Sample.springSite t eq_refl Hnav)
    as (tr & r & Hmain & _ & Hreq & _).
  exists tr, r. split; [done|]. rewrite Hreq.
  vm_compute in Hnav. injection Hnav as <-. vm_compute. reflexivity.
Defined.

(** X15: when the navigation tree cannot be obtained, [main] fails with
    the error of the extraction and has requested nothing but the start
    page: no article is fetched and no pause is made. *)
Theorem main_navigation_failure (env : Env) (error : JsError) :
  snd (getSpringBootDocsNavData env startURL) = Throw error ->
  main env = Some ([HttpGet startURL; ConsoleError (message error)], Throw error).
Proof.
  intros Hnav. unfold main. fold startURL.
  pose proof (getSpringBootDocsNavData_trace env startURL) as Htr.
  destruct (getSpringBootDocsNavData env startURL) as [tr nav]. simpl in Hnav, Htr.
  subst nav. rewrite stripSlash_startURL in Htr. by rewrite Htr.
Qed.

Lemma main_navigation_failure_witness :
  main Sample.site
  = Some ([HttpGet startURL;
           ConsoleError "Cannot read properties of null (reading 'querySelector')"],
          Throw (TypeError "Cannot read properties of null (reading 'querySelector')")).
Proof.
  apply (main_navigation_failure Sample.site
           (TypeError "Cannot read properties of null (reading 'querySelector')")).
  vm_compute. reflexivity.
Defined.

(** ** A run whose output is not a terminal *)

(** X19: when standard output is not a terminal, a run over at least one
    task stops in its first batch with the [TypeError] of the progress
    bar.  The requests of the first batch have gone out and one of them
    has settled; it was counted twice if it yielded a document (by the
    [then] handler and, after that handler threw, by the [catch] handler)
    and once if it failed.  Nothing was reported, no document was kept and
    no pause was made. *)
Theorem fetchAll_not_a_terminal (env : Env) (size : nat) (urls : list string) :
  isTTY env = false -> 0 < size -> urls <> [] ->
  exists st url,
    In url (take size urls)
    /\ fetchAll env size urls = Some (Throw ProgressBar.renderError, st)
    /\ completedCount st = (if fetched env url then 2 else 1)
    /\ articleDataArr st = []
    /\ batches st = [take size urls]
    /\ requests (trace st) = take size urls
    /\ renders (trace st) = []
    /\ delays (trace st) = [].
Proof. apply fetchAll_off. Qed.

Lemma fetchAll_not_a_terminal_witness :
  exists st url,
    In url (take 2 Sample.failingUrls)
    /\ fetchAll Sample.pipedSite 2 Sample.failingUrls
       = Some (Throw ProgressBar.renderError, st)
    /\ completedCount st = (if fetched Sample.pipedSite url then 2 else 1)
    /\ articleDataArr st = []
    /\ batches st = [take 2 Sample.failingUrls]
    /\ requests (trace st) = take 2 Sample.failingUrls
    /\ renders (trace st) = []
    /\ delays (trace st) = [].
Proof.
  apply (fetchAll_not_a_terminal Sample.pipedSite 2 Sample.failingUrls);
    [reflexivity | lia | discriminate].
Defined.

(** X20: when standard output is not a terminal and the navigation tree
    has at least one article link, [main] fails with the [TypeError] of
    the progress bar: it has requested the start page and the first
    [BATCH_SIZE] collected URLs and nothing else, and returns no
    documents and no index. *)
Theorem main_not_a_terminal (env : Env) (t : NavData) :
  isTTY env = false ->
  snd (getSpringBootDocsNavData env startURL) = Normal t ->
  collectArticleUrls t <> [] ->
  exists tr,
    main env = Some (tr, Throw ProgressBar.renderError)
    /\ requests tr = startURL :: take BATCH_SIZE (collectArticleUrls t)
    /\ renders tr = []
    /\ delays tr = [].
Proof.
  intros Htty Hnav Hne. unfold main. fold startURL.
  pose proof (getSpringBootDocsNavData_trace env startURL) as Htr.
  destruct (getSpringBootDocsNavData env startURL) as [tr nav]. simpl in Hnav, Htr.
  subst nav. rewrite stripSlash_startURL in Htr.
  destruct (fetchAll_off env BATCH_SIZE (collectArticleUrls t) Htty)
    as (st & url & _ & -> & _ & _ & _ & Hq & Hr & Hd); [unfold BATCH_SIZE; lia | done |].
  eexists. split; [done|].
  rewrite requests_app, renders_app, delays_app, Hq, Hr, Hd, Htr. done.
Qed.

Lemma main_not_a_terminal_witness :
  exists tr,
    main Sample.pipedSpringSite = Some (tr, Throw ProgressBar.renderError)
    /\ requests tr
       = startURL :: ["https://docs.spring.io/spring-boot/a.html";
                      "https://docs.spring.io/spring-boot/d.html";
                      "https://docs.spring.io/spring-boot/c.html";
                      "https://docs.spring.io/spring-boot/index.html"].
Proof.
  destruct (snd (getSpringBootDocsNavData Sample.pipedSpringSite startURL))
    as [t | e] eqn:Hnav; [|vm_compute in Hnav; discriminate].
  destruct (main_not_a_terminal Sample.pipedSpringSite t eq_refl Hnav)
    as (tr & Hmain & Hreq & _).
  { vm_compute in Hnav. injection Hnav as <-. vm_compute. discriminate. }
  exists tr. split; [done|]. rewrite Hreq.
  vm_compute in Hnav. injection Hnav as <-. vm_compute. reflexivity.
Defined.



(** ** The order in which requests settle *)

Lemma taskResult_ext (env1 env2 : Env) (url : string) :
  httpGet env1 = httpGet env2 -> parseHtml env1 = parseHtml env2 ->
  trim env1 = trim env2 -> innerHTML env1 = innerHTML env2 ->
  taskResult env1 url = taskResult env2 url.
Proof.
  destruct env1, env2. simpl. by intros -> -> -> ->.
Qed.

(** X18: what a run on a terminal keeps does not depend on the order in
    which the requests of a batch settle: two runs over the same site that
    differ only in that order request the same addresses in the same
    order, make the same progress reports and keep the same documents in
    the same order. *)
Theorem fetchAll_order_independent (env1 env2 : Env) (size : nat) (urls : list string) :
  isTTY env1 = true -> isTTY env2 = true ->
  0 < size ->
  httpGet env1 = httpGet env2 -> parseHtml env1 = parseHtml env2 ->
  trim env1 = trim env2 -> innerHTML env1 = innerHTML env2 ->
  exists st1 st2,
    fetchAll env1 size urls = Some (Normal tt, st1)
    /\ fetchAll env2 size urls = Some (Normal tt, st2)
    /\ articleDataArr st1 = articleDataArr st2
    /\ requests (trace st1) = requests (trace st2)
    /\ renders (trace st1) = renders (trace st2).
Proof.
  intros Htty1 Htty2 Hsize Hget Hparse Htrim Hinner.
  destruct (fetchAll_spec env1 size urls Htty1 Hsize)
    as (st1 & segs1 & Hrun1 & _ & _ & Hcat1 & _ & _ & Ha1 & Ht1 & Hsegs1 & Hr1).
  destruct (fetchAll_spec env2 size urls Htty2 Hsize)
    as (st2 & segs2 & Hrun2 & _ & _ & Hcat2 & _ & _ & Ha2 & Ht2 & Hsegs2 & Hr2).
  exists st1, st2. split_and!; try done.
  - rewrite Ha1, Ha2. f_equal.
    apply List.map_ext. intros url. by apply taskResult_ext.
  - by rewrite Ht1, Ht2, (segments_requests _ _ Hsegs1), (segments_requests _ _ Hsegs2),
      Hcat1, Hcat2.
  - by rewrite Hr1, Hr2.
Qed.

(** The sample site with the requests of a batch settling first to last
    and last to first. *)
Lemma fetchAll_order_independent_witness :
  exists st1 st2,
    fetchAll Sample.site 2 Sample.failingUrls = Some (Normal tt, st1)
    /\ fetchAll Sample.siteInOrder 2 Sample.failingUrls = Some (Normal tt, st2)
    /\ articleDataArr st1 = articleDataArr st2
    /\ requests (trace st1) = requests (trace st2)
    /\ renders (trace st1) = renders (trace st2).
Proof.
  apply (fetchAll_order_independent Sample.site Sample.siteInOrder 2 Sample.failingUrls);
    [reflexivity | reflexivity | lia | reflexivity..].
Defined.
